(** * semgrep/rule_lang.py: spans, the source registry and span-annotated YAML trees

    A shallow embedding of [semgrep/semgrep/rule_lang.py].

    - Python [int] is unbounded, so line and column numbers are [Z].
    - Python [str] is [string]; [bytes] is [list Byte.byte].
    - [SourceTracker.sources], a class-level [dict], is a [gmap] that the
      operations take and return explicitly.
    - A raised exception is the [Raise] case of [result].
    - Objects compared by identity ([YamlTree] has neither [__eq__] nor
      [__hash__]) carry the address they were allocated at; constructors run in
      an allocation monad that hands out fresh addresses.
    - [hashlib], [str.encode], [str.splitlines] and [repr] are the runtime's:
      they are section variables of the definitions that call them.

    Not modelled: [bool] (an [int] subclass), cyclic lists and dicts, the
    recursion limit, and [parse_yaml] / [parse_yaml_preserve_spans], which
    drive the [ruamel.yaml] parser.  [YamlMap.__setitem__] returns the updated
    map instead of mutating a shared one. *)

From stdpp Require Import gmap strings list pretty.

Local Open Scope Z_scope.

(** ** Exceptions *)

Inductive PyErr : Type :=
  | KeyError (key : string)
  | ValueError (msg : string)
  | AttributeError (attr : string)
  | StopIteration.

Inductive result (A : Type) : Type :=
  | Ok (a : A)
  | Raise (e : PyErr).
Arguments Ok {A} a.
Arguments Raise {A} e.

Definition rbind {A B : Type} (r : result A) (k : A -> result B) : result B :=
  match r with
  | Ok a => k a
  | Raise e => Raise e
  end.

Notation "'let!' x ':=' r 'in' k" := (rbind r (fun x => k))
  (at level 10, x name, r at level 100, k at level 200).

(** ** SourceTracker *)

(** [SourceFileHash = NewType("SourceFileHash", str)] *)
Abbreviation SourceFileHash := string (only parsing).

Module SourceTracker.

(** [sources: Dict[SourceFileHash, List[str]] = {}] *)
Abbreviation sources_t := (gmap string (list string)) (only parsing).

Definition sources_init : sources_t := ∅.

Section Builtins.
(** [str.encode("utf-8")], [hashlib.sha256(_).hexdigest()] and
    [str.splitlines()] belong to the Python runtime. *)
Variable encode_utf8 : string -> list Byte.byte.
Variable sha256_hexdigest : list Byte.byte -> string.
Variable splitlines : string -> list string.

(** [contents: Union[str, bytes]] *)
Definition _src_to_hash (contents : string + list Byte.byte) : SourceFileHash :=
  let contents :=
    match contents with
    | inl s => encode_utf8 s
    | inr b => b
    end in
  sha256_hexdigest contents.

Definition add_source (source : string) (sources : sources_t)
  : SourceFileHash * sources_t :=
  let file_hash := _src_to_hash (inl source) in
  (file_hash, <[file_hash := splitlines source]> sources).

(** The registry after registering [texts] one after the other, oldest first. *)
Definition register_all (texts : list string) (sources : sources_t) : sources_t :=
  foldl (fun acc text => snd (add_source text acc)) sources texts.
End Builtins.

(** [cls.sources[source_hash]] *)
Definition source (source_hash : SourceFileHash) (sources : sources_t)
  : result (list string) :=
  match sources !! source_hash with
  | Some lines => Ok lines
  | None => Raise (KeyError source_hash)
  end.

End SourceTracker.

(** ** Position *)

Record Position : Type := mkPosition { line : Z; col : Z }.

Module Position.
Definition next_line (self : Position) : Position :=
  {| line := line self + 1; col := col self |}.

Definition previous_line (self : Position) : Position :=
  {| line := line self - 1; col := col self |}.
End Position.

(** ** Span *)

Record Span : Type := mkSpan {
  start : Position;
  end_ : Position;
  source_hash : SourceFileHash;
  file : option string;
  context_start : option Position;
  context_end : option Position
}.

(** The marks of a [ruamel.yaml] node, 0-indexed. *)
Module ruamel.
Record Mark : Type := mkMark { line : Z; column : Z }.
Record Node : Type := mkNode { start_mark : Mark; end_mark : Mark }.
End ruamel.

Module Span.

Definition from_node (node : ruamel.Node) (source_hash : SourceFileHash)
    (filename : option string) : Span :=
  let start :=
    {| line := ruamel.line (ruamel.start_mark node) + 1;
       col := ruamel.column (ruamel.start_mark node) + 1 |} in
  let end_ :=
    {| line := ruamel.line (ruamel.end_mark node) + 1;
       col := ruamel.column (ruamel.end_mark node) + 1 |} in
  {| start := start; end_ := end_; source_hash := source_hash; file := filename;
     context_start := None; context_end := None |}.

Definition truncate (self : Span) (lines : Z) : Span :=
  if bool_decide (line (end_ self) - line (start self) > lines) then
    {| start := start self;
       end_ := {| line := line (start self) + lines; col := 0 |};
       source_hash := source_hash self;
       file := file self;
       context_start := context_start self;
       context_end := None |}
  else self.

(** [span.context_end or span.end]: a [Position] is always truthy, so [or]
    only falls through on [None]. *)
Definition extend_to (self span : Span) (context_only : bool) : Span :=
  if context_only then
    {| start := start self; end_ := end_ self;
       source_hash := source_hash self; file := file self;
       context_start := context_start self;
       context_end := Some (default (end_ span) (context_end span)) |}
  else
    {| start := start self; end_ := end_ span;
       source_hash := source_hash self; file := file self;
       context_start := context_start self;
       context_end := context_end span |}.

(** [before] and [after] default to [None]. *)
Definition with_context (self : Span) (before after : option Z)
    (sources : SourceTracker.sources_t) : result Span :=
  let new := self in
  let new :=
    match before with
    | Some before =>
        {| start := start new; end_ := end_ new;
           source_hash := source_hash new; file := file new;
           context_start :=
             Some {| col := 0; line := Z.max 0 (line (start self) - before) |};
           context_end := context_end new |}
    | None => new
    end in
  match after with
  | Some after =>
      let! lines := SourceTracker.source (source_hash self) sources in
      Ok {| start := start new; end_ := end_ new;
            source_hash := source_hash new; file := file new;
            context_start := context_start new;
            context_end :=
              Some {| col := 0;
                      line := Z.min (Z.of_nat (length lines))
                                    (line (end_ self) + after) |} |}
  | None => Ok new
  end.

End Span.

(** ** Python values

    What [YamlTree.wrap] may be handed and what a [YamlTree] may hold:
    [YamlValue = Union[str, int, List[Any], Dict[str, Any]]] with [Any] opened
    up to [None], [float], and the two classes of this module.

    A [dict] is the list of its items in insertion order.  [YamlTree] defines
    neither [__eq__] nor [__hash__], so as a [dict] key it is compared by
    identity: [tid] is the address of the object. *)

#[local] Unset Elimination Schemes.
Inductive PyVal : Type :=
  | PStr (s : string)
  | PInt (n : Z)
  | PNone
  | PFloat (bits : N)                          (* IEEE-754 binary64 *)
  | PList (elems : list PyVal)
  | PDict (entries : list (string * PyVal))    (* Dict[str, Any] *)
  | PTree (t : YamlTree)
  | PMap (m : YamlMap)
with YamlTree : Type :=
  | mkYamlTree (tid : nat) (value : PyVal) (span : Span)
with YamlMap : Type :=
  | mkYamlMap (_internal : list (YamlTree * YamlTree)).
#[local] Set Elimination Schemes.

Definition tid (t : YamlTree) : nat := let 'mkYamlTree i _ _ := t in i.
Definition value (t : YamlTree) : PyVal := let 'mkYamlTree _ v _ := t in v.
Definition span (t : YamlTree) : Span := let 'mkYamlTree _ _ s := t in s.
Definition _internal (m : YamlMap) : list (YamlTree * YamlTree) :=
  let 'mkYamlMap d := m in d.

(** [d[k] = v] on a [dict]: an entry whose key equals [k] keeps its place and
    its key object and takes the new value; otherwise the item is appended. *)
Fixpoint dict_setitem {K V : Type} (eqb : K -> K -> bool)
    (d : list (K * V)) (k : K) (v : V) : list (K * V) :=
  match d with
  | [] => [(k, v)]
  | (k', v') :: d' =>
      if eqb k' k then (k', v) :: d' else (k', v') :: dict_setitem eqb d' k v
  end.

(** Key equality of [Dict[str, _]]. *)
Definition str_eqb (a b : string) : bool := bool_decide (a = b).

(** Key equality of [Dict[YamlTree, _]]: the same object. *)
Definition is_ (a b : YamlTree) : bool := Nat.eqb (tid a) (tid b).

(** [value == key] for a [str] [key]: only a [str] with the same characters
    equals a [str]; [YamlTree] and [YamlMap] inherit [object.__eq__]. *)
Definition eq_str (value : PyVal) (key : string) : bool :=
  match value with
  | PStr s => bool_decide (s = key)
  | _ => false
  end.

(** [type(ret).__name__] *)
Definition type_name (v : PyVal) : string :=
  match v with
  | PStr _ => "str"
  | PInt _ => "int"
  | PNone => "NoneType"
  | PFloat _ => "float"
  | PList _ => "list"
  | PDict _ => "dict"
  | PTree _ => "YamlTree"
  | PMap _ => "YamlMap"
  end.

(** ** Object allocation

    [alloc A] is a computation that may construct objects: it takes the next
    free address and returns it advanced. *)

Definition alloc (A : Type) : Type := nat -> A * nat.

Definition aret {A : Type} (a : A) : alloc A := fun next => (a, next).

Definition abind {A B : Type} (c : alloc A) (k : A -> alloc B) : alloc B :=
  fun next => let '(a, next') := c next in k a next'.

Notation "'new!' x ':=' c 'in' k" := (abind c (fun x => k))
  (at level 10, x name, c at level 100, k at level 200).

(** ** YamlTree *)

Module YamlTree.

(** [YamlTree(value, span)]: a new object at the next free address. *)
Definition __init__ (value : PyVal) (span : Span) : alloc YamlTree :=
  fun next => (mkYamlTree next value span, S next).

(** [YamlTree.wrap].  The keys of a [Dict[str, Any]] are [str], so
    [YamlTree.wrap(k, span)] on a key takes the last branch (lemma
    [wrap_key] below).  A [dict] comprehension evaluates the key before the
    value and stores each pair with [d[k] = v]. *)
Fixpoint wrap (value : PyVal) (span : Span) {struct value} : alloc YamlTree :=
  match value with
  | PList elems =>
      new! trees :=
        (fix each (elems : list PyVal) : alloc (list PyVal) :=
           match elems with
           | [] => aret []
           | x :: elems' =>
               new! t := wrap x span in
               new! ts := each elems' in
               aret (PTree t :: ts)
           end) elems in
      __init__ (PList trees) span
  | PDict entries =>
      new! internal :=
        (fix each (entries : list (string * PyVal))
                  (acc : list (YamlTree * YamlTree))
           : alloc (list (YamlTree * YamlTree)) :=
           match entries with
           | [] => aret acc
           | (k, v) :: entries' =>
               new! kt := __init__ (PStr k) span in
               new! vt := wrap v span in
               each entries' (dict_setitem is_ acc kt vt)
           end) entries [] in
      __init__ (PMap (mkYamlMap internal)) span
  | PTree t => aret t
  | _ => __init__ value span
  end.

Section Repr.
(** [str()] of anything but a [str] or an [int] is left to the runtime's
    [repr]. *)
Variable repr : PyVal -> string.

Definition str (v : PyVal) : string :=
  match v with
  | PStr s => s
  | PInt n => pretty n
  | _ => repr v
  end.

(** [YamlTree.unroll].  [x.unroll()] on an element that is not a
    [YamlTree] is an [AttributeError]. *)
Fixpoint unroll (self : YamlTree) : result PyVal :=
  match self with
  | mkYamlTree _ value _ =>
      match value with
      | PList elems =>
          let! plain :=
            (fix each (elems : list PyVal) : result (list PyVal) :=
               match elems with
               | [] => Ok []
               | x :: elems' =>
                   let! y :=
                     match x with
                     | PTree t => unroll t
                     | _ => Raise (AttributeError "unroll")
                     end in
                   let! ys := each elems' in
                   Ok (y :: ys)
               end) elems in
          Ok (PList plain)
      | PMap (mkYamlMap internal) =>
          let! plain :=
            (fix each (items : list (YamlTree * YamlTree))
                      (acc : list (string * PyVal))
               : result (list (string * PyVal)) :=
               match items with
               | [] => Ok acc
               | (k, v) :: items' =>
                   let! ku := unroll k in
                   let! vu := unroll v in
                   each items' (dict_setitem str_eqb acc (str ku) vu)
               end) internal [] in
          Ok (PDict plain)
      | PTree t => unroll t
      | PStr _ | PInt _ => Ok value
      | _ => Raise (ValueError "Invalid YAML tree structure")
      end
  end.

End Repr.

End YamlTree.

(** ** YamlMap *)

Module YamlMap.


(** [self._internal[key] = value], returning the mutated map. *)
Definition __setitem__ (self : YamlMap) (key value : YamlTree) : YamlMap :=
  mkYamlMap (dict_setitem is_ (_internal self) key value).

Definition items (self : YamlMap) : list (YamlTree * YamlTree) :=
  _internal self.


(** [if match:] on a list is [len(match) != 0]. *)
Definition get (self : YamlMap) (key : string) : option YamlTree :=
  let match_ :=
    (filter (fun kv => eq_str (value kv.1) key = true) (_internal self)).*2 in
  match match_ with
  | v :: _ => Some v
  | [] => None
  end.

Definition keys (self : YamlMap) : list YamlTree :=
  (_internal self).*1.

End YamlMap.

(** ** Concrete data used by the examples below *)

(** 1-indexedness of a position and of every position of a span. *)
Definition pos_1indexed (p : Position) : bool :=
  bool_decide (1 <= line p) && bool_decide (1 <= col p).

Definition span_1indexed (s : Span) : bool :=
  pos_1indexed (start s) && pos_1indexed (end_ s)
  && from_option pos_1indexed true (context_start s)
  && from_option pos_1indexed true (context_end s).

(** The span of a node from line 0, column 0 to line 5, column 3. *)
Definition six_line_span : Span :=
  Span.from_node
    (ruamel.mkNode (ruamel.mkMark 0 0) (ruamel.mkMark 5 3)) "h" (Some "rules.yaml").

(** A registry holding three lines under the hash ["h"]. *)
Definition three_line_sources : gmap string (list string) :=
  <["h" := ["rules:"; "  - id: x"; "    pattern: y"]]> SourceTracker.sources_init.

(** ** The loops of [wrap] and [unroll] on their own

    The comprehensions inside [YamlTree.wrap] and [YamlTree.unroll], named so
    that lemmas can speak about them; each is the loop of the method it comes
    from, by the unfolding lemmas of the theory below. *)

Section WrapLoops.
Variable span : Span.

Fixpoint wrap_elems (elems : list PyVal) : alloc (list PyVal) :=
  match elems with
  | [] => aret []
  | x :: elems' =>
      new! t := YamlTree.wrap x span in
      new! ts := wrap_elems elems' in
      aret (PTree t :: ts)
  end.

Fixpoint wrap_entries (entries : list (string * PyVal))
    (acc : list (YamlTree * YamlTree)) : alloc (list (YamlTree * YamlTree)) :=
  match entries with
  | [] => aret acc
  | (k, v) :: entries' =>
      new! kt := YamlTree.__init__ (PStr k) span in
      new! vt := YamlTree.wrap v span in
      wrap_entries entries' (dict_setitem is_ acc kt vt)
  end.

(** The key and value trees [wrap] builds for the entries of a [dict], in
    order, before they are stored. *)
Fixpoint wrap_pairs (entries : list (string * PyVal))
  : alloc (list (YamlTree * YamlTree)) :=
  match entries with
  | [] => aret []
  | (k, v) :: entries' =>
      new! kt := YamlTree.__init__ (PStr k) span in
      new! vt := YamlTree.wrap v span in
      new! rest := wrap_pairs entries' in
      aret ((kt, vt) :: rest)
  end.
End WrapLoops.

Section UnrollLoops.
Variable repr : PyVal -> string.

Definition unroll_elem (x : PyVal) : result PyVal :=
  match x with
  | PTree t => YamlTree.unroll repr t
  | _ => Raise (AttributeError "unroll")
  end.

Fixpoint unroll_elems (elems : list PyVal) : result (list PyVal) :=
  match elems with
  | [] => Ok []
  | x :: elems' =>
      let! y := unroll_elem x in
      let! ys := unroll_elems elems' in
      Ok (y :: ys)
  end.

Fixpoint unroll_items (items : list (YamlTree * YamlTree))
    (acc : list (string * PyVal)) : result (list (string * PyVal)) :=
  match items with
  | [] => Ok acc
  | (k, v) :: items' =>
      let! ku := YamlTree.unroll repr k in
      let! vu := YamlTree.unroll repr v in
      unroll_items items' (dict_setitem str_eqb acc (YamlTree.str repr ku) vu)
  end.
End UnrollLoops.

(** [dict(pairs)]: the pairs stored one after the other. *)
Definition dict_of {V : Type} (pairs : list (string * V)) : list (string * V) :=
  foldl (fun d kv => dict_setitem str_eqb d kv.1 kv.2) [] pairs.

(** ** Shapes of plain values *)

(** A plain value: no [YamlTree] or [YamlMap] inside, and, as in every
    [dict], no key twice. *)
Fixpoint plain (v : PyVal) : bool :=
  match v with
  | PStr _ | PInt _ | PNone | PFloat _ => true
  | PList elems => forallb plain elems
  | PDict entries =>
      bool_decide (NoDup entries.*1) && forallb (fun kv => plain kv.2) entries
  | PTree _ | PMap _ => false
  end.

(** A plain value built only from the supported shapes: strings, integers,
    lists and string-keyed mappings. *)
Fixpoint supported (v : PyVal) : bool :=
  match v with
  | PStr _ | PInt _ => true
  | PList elems => forallb supported elems
  | PDict entries =>
      bool_decide (NoDup entries.*1) && forallb (fun kv => supported kv.2) entries
  | _ => false
  end.

(** Induction on a value through its list elements and dict values. *)
Section PyVal_nested_ind.
Variable P : PyVal -> Prop.
Hypothesis HStr : forall s, P (PStr s).
Hypothesis HInt : forall n, P (PInt n).
Hypothesis HNone : P PNone.
Hypothesis HFloat : forall bits, P (PFloat bits).
Hypothesis HList : forall elems, Forall P elems -> P (PList elems).
Hypothesis HDict : forall entries, Forall (fun kv => P kv.2) entries -> P (PDict entries).
Hypothesis HTree : forall t, P (PTree t).
Hypothesis HMap : forall m, P (PMap m).

Fixpoint PyVal_nested_ind (v : PyVal) : P v :=
  match v with
  | PStr s => HStr s
  | PInt n => HInt n
  | PNone => HNone
  | PFloat bits => HFloat bits
  | PList elems =>
      HList elems
        ((fix each (l : list PyVal) : Forall P l :=
            match l with
            | [] => Forall_nil_2 P
            | x :: l' => Forall_cons_2 P x l' (PyVal_nested_ind x) (each l')
            end) elems)
  | PDict entries =>
      HDict entries
        ((fix each (l : list (string * PyVal)) : Forall (fun kv => P kv.2) l :=
            match l with
            | [] => Forall_nil_2 _
            | (k, x) :: l' =>
                Forall_cons_2 (fun kv => P kv.2) (k, x) l' (PyVal_nested_ind x) (each l')
            end) entries)
  | PTree t => HTree t
  | PMap m => HMap m
  end.
End PyVal_nested_ind.

Abbreviation invalid_tree := (ValueError "Invalid YAML tree structure").

(** What unrolling a wrapped plain value gives: the value itself when it is
    built from the supported shapes, and [ValueError] otherwise. *)
Definition unroll_outcome (v : PyVal) : result PyVal :=
  if supported v then Ok v else Raise invalid_tree.

(** A map keyed by a tree holding the integer 7. *)
Definition seven_map : YamlTree :=
  mkYamlTree 2
    (PMap (mkYamlMap [(mkYamlTree 0 (PInt 7) six_line_span,
                       mkYamlTree 1 (PStr "x") six_line_span)]))
    six_line_span.

(** Example values. *)
Definition rule_value : PyVal :=
  PDict [("id", PStr "x"); ("severity", PInt 2);
         ("patterns", PList [PDict [("pattern", PStr "y")]; PStr "z"])].

Definition key_a (address : nat) : YamlTree :=
  mkYamlTree address (PStr "a") six_line_span.

Definition int_tree (address : nat) (n : Z) : YamlTree :=
  mkYamlTree address (PInt n) six_line_span.

(** ** Definitions for the further theory *)





(** The trees [unroll] visits from a tree, children before parents: the
    elements of a list, the keys and values of a map, the tree a tree holds,
    and last the tree itself. *)
Fixpoint nodes (t : YamlTree) : list YamlTree :=
  match t with
  | mkYamlTree _ value _ =>
      match value with
      | PList elems =>
          (fix each (elems : list PyVal) : list YamlTree :=
             match elems with
             | [] => []
             | x :: elems' =>
                 match x with
                 | PTree t' => nodes t'
                 | _ => []
                 end ++ each elems'
             end) elems
      | PMap (mkYamlMap internal) =>
          (fix each (items : list (YamlTree * YamlTree)) : list YamlTree :=
             match items with
             | [] => []
             | (k, v) :: items' => nodes k ++ nodes v ++ each items'
             end) internal
      | PTree t' => nodes t'
      | _ => []
      end ++ [t]
  end.

Definition elem_nodes (x : PyVal) : list YamlTree :=
  match x with
  | PTree t => nodes t
  | _ => []
  end.

Fixpoint elems_nodes (elems : list PyVal) : list YamlTree :=
  match elems with
  | [] => []
  | x :: elems' => elem_nodes x ++ elems_nodes elems'
  end.

Fixpoint items_nodes (items : list (YamlTree * YamlTree)) : list YamlTree :=
  match items with
  | [] => []
  | (k, v) :: items' => nodes k ++ nodes v ++ items_nodes items'
  end.

(** Induction on a tree through everything [unroll] visits. *)
Section YamlTree_nested_ind.
Variable P : YamlTree -> Prop.
Hypothesis HLeaf : forall i v sp,
  (forall elems, v <> PList elems) -> (forall m, v <> PMap m) ->
  (forall t, v <> PTree t) -> P (mkYamlTree i v sp).
Hypothesis HSeq : forall i elems sp,
  Forall (fun x => match x with PTree t => P t | _ => True end) elems ->
  P (mkYamlTree i (PList elems) sp).
Hypothesis HMapping : forall i internal sp,
  Forall (fun kv => P kv.1 /\ P kv.2) internal ->
  P (mkYamlTree i (PMap (mkYamlMap internal)) sp).
Hypothesis HNested : forall i t sp, P t -> P (mkYamlTree i (PTree t) sp).

Fixpoint YamlTree_nested_ind (t : YamlTree) : P t :=
  match t with
  | mkYamlTree i value sp =>
      match value return P (mkYamlTree i value sp) with
      | PList elems =>
          HSeq i elems sp
            ((fix each (l : list PyVal)
                : Forall (fun x => match x with PTree t => P t | _ => True end) l :=
                match l with
                | [] => Forall_nil_2 _
                | x :: l' =>
                    Forall_cons_2 _ x l'
                      (match x return match x with PTree t => P t | _ => True end with
                       | PTree t' => YamlTree_nested_ind t'
                       | _ => I
                       end)
                      (each l')
                end) elems)
      | PMap (mkYamlMap internal) =>
          HMapping i internal sp
            ((fix each (l : list (YamlTree * YamlTree))
                : Forall (fun kv => P kv.1 /\ P kv.2) l :=
                match l with
                | [] => Forall_nil_2 _
                | (k, v) :: l' =>
                    Forall_cons_2 (fun kv => P kv.1 /\ P kv.2) (k, v) l'
                      (conj (YamlTree_nested_ind k) (YamlTree_nested_ind v))
                      (each l')
                end) internal)
      | PTree t' => HNested i t' sp (YamlTree_nested_ind t')
      | PStr s => HLeaf i (PStr s) sp ltac:(discriminate) ltac:(discriminate) ltac:(discriminate)
      | PInt n => HLeaf i (PInt n) sp ltac:(discriminate) ltac:(discriminate) ltac:(discriminate)
      | PNone => HLeaf i PNone sp ltac:(discriminate) ltac:(discriminate) ltac:(discriminate)
      | PFloat b => HLeaf i (PFloat b) sp ltac:(discriminate) ltac:(discriminate) ltac:(discriminate)
      | PDict d => HLeaf i (PDict d) sp ltac:(discriminate) ltac:(discriminate) ltac:(discriminate)
      end
  end.
End YamlTree_nested_ind.

(** Stand-ins for the runtime's digest, used by examples: the digest of a
    text is the text. *)
Definition id_encode (s : string) : list Byte.byte := String.list_byte_of_string s.
Definition id_digest (b : list Byte.byte) : string := String.string_of_list_byte b.

(** A map with the key ["a"] twice. *)
Definition dup_map : YamlMap :=
  mkYamlMap [(key_a 0, int_tree 1 1); (key_a 2, int_tree 3 2)].

(** * Span: truncation and context *)

Lemma truncate_keep (s : Span) (N : Z) :
  line (end_ s) - line (start s) <= N -> Span.truncate s N = s.
Proof.
  intros Hle. unfold Span.truncate.
  rewrite bool_decide_eq_false_2; [reflexivity | lia].
Qed.

Lemma truncate_cut (s : Span) (N : Z) :
  line (end_ s) - line (start s) > N ->
  Span.truncate s N =
    {| start := start s;
       end_ := {| line := line (start s) + N; col := 0 |};
       source_hash := source_hash s; file := file s;
       context_start := context_start s; context_end := None |}.
Proof.
  intros Hgt. unfold Span.truncate.
  rewrite bool_decide_eq_true_2; [reflexivity | lia].
Qed.

(** C2: [truncate(N)] returns the span itself when it covers at most [N] line
    steps; otherwise the result ends at [Position(start.line + N, 0)], has no
    [context_end], and keeps start, source hash, file and [context_start]. *)
Theorem truncate_spec (s : Span) (N : Z) :
  (line (end_ s) - line (start s) <= N -> Span.truncate s N = s) /\
  (line (end_ s) - line (start s) > N ->
     end_ (Span.truncate s N) = {| line := line (start s) + N; col := 0 |} /\
     context_end (Span.truncate s N) = None /\
     start (Span.truncate s N) = start s /\
     source_hash (Span.truncate s N) = source_hash s /\
     file (Span.truncate s N) = file s /\
     context_start (Span.truncate s N) = context_start s).
Proof.
  split.
  - apply truncate_keep.
  - intros Hgt. rewrite (truncate_cut s N Hgt). simpl. repeat split.
Qed.

Lemma truncate_spec_witness :
  Span.truncate six_line_span 7 = six_line_span /\
  end_ (Span.truncate six_line_span 2) = {| line := 3; col := 0 |} /\
  context_end (Span.truncate six_line_span 2) = None.
Proof.
  destruct (truncate_spec six_line_span 7) as [Hkeep _].
  destruct (truncate_spec six_line_span 2) as [_ Hcut].
  split; [apply Hkeep; vm_compute; discriminate |].
  destruct Hcut as (Hend & Hctx & _); [vm_compute; reflexivity |].
  split; [exact Hend | exact Hctx].
Defined.

Lemma with_context_registered (s : Span) (before after : option Z)
    (sources : gmap string (list string)) (lines : list string) :
  sources !! source_hash s = Some lines ->
  Span.with_context s before after sources =
    Ok {| start := start s; end_ := end_ s;
          source_hash := source_hash s; file := file s;
          context_start :=
            match before with
            | Some B => Some {| line := Z.max 0 (line (start s) - B); col := 0 |}
            | None => context_start s
            end;
          context_end :=
            match after with
            | Some A =>
                Some {| line := Z.min (Z.of_nat (length lines)) (line (end_ s) + A);
                        col := 0 |}
            | None => context_end s
            end |}.
Proof.
  intros Hreg. unfold Span.with_context, SourceTracker.source. rewrite Hreg.
  destruct s, before, after; reflexivity.
Qed.

(** C3: over a source registered with [L] lines, [with_context(before=B,
    after=A)] sets [context_start] to [Position(max(0, start.line - B), 0)] and
    [context_end] to [Position(min(L, end.line + A), 0)] and keeps start, end,
    source hash and file; an omitted argument leaves its context bound as it
    was. *)
Theorem with_context_spec (s : Span) (before after : option Z)
    (sources : gmap string (list string)) (lines : list string) :
  sources !! source_hash s = Some lines ->
  exists s',
    Span.with_context s before after sources = Ok s' /\
    start s' = start s /\ end_ s' = end_ s /\
    source_hash s' = source_hash s /\ file s' = file s /\
    context_start s' =
      match before with
      | Some B => Some {| line := Z.max 0 (line (start s) - B); col := 0 |}
      | None => context_start s
      end /\
    context_end s' =
      match after with
      | Some A =>
          Some {| line := Z.min (Z.of_nat (length lines)) (line (end_ s) + A);
                  col := 0 |}
      | None => context_end s
      end.
Proof.
  intros Hreg. eexists. split.
  - apply (with_context_registered _ _ _ _ _ Hreg).
  - simpl. repeat split.
Qed.

Lemma with_context_spec_witness :
  exists s',
    Span.with_context six_line_span (Some 4) (Some 2) three_line_sources = Ok s' /\
    context_start s' = Some {| line := 0; col := 0 |} /\
    context_end s' = Some {| line := 3; col := 0 |}.
Proof.
  destruct (with_context_spec six_line_span (Some 4) (Some 2) three_line_sources
              ["rules:"; "  - id: x"; "    pattern: y"] eq_refl)
    as (s' & Hrun & _ & _ & _ & _ & Hcs & Hce).
  exists s'. repeat split; assumption.
Defined.

(** * SourceTracker: lookups and re-registration *)

Section SourceTrackerFacts.
Variable encode_utf8 : string -> list Byte.byte.
Variable sha256_hexdigest : list Byte.byte -> string.
Variable splitlines : string -> list string.

Let hash_of (text : string) : string :=
  SourceTracker._src_to_hash encode_utf8 sha256_hexdigest (inl text).
Let add_source := SourceTracker.add_source encode_utf8 sha256_hexdigest splitlines.
Let register_all := SourceTracker.register_all encode_utf8 sha256_hexdigest splitlines.

Lemma register_all_cons (text : string) (texts : list string)
    (sources : gmap string (list string)) :
  register_all (text :: texts) sources =
  register_all texts (<[hash_of text := splitlines text]> sources).
Proof. reflexivity. Qed.

(** Registering texts leaves every other hash as it was. *)
Lemma register_all_other (texts : list string)
    (sources : gmap string (list string)) (h : string) :
  h ∉ hash_of <$> texts ->
  register_all texts sources !! h = sources !! h.
Proof.
  revert sources. induction texts as [|text texts IH]; intros sources Hnot.
  - reflexivity.
  - rewrite register_all_cons. rewrite fmap_cons in Hnot.
    apply not_elem_of_cons in Hnot as [Hne Hnot].
    rewrite (IH _ Hnot). apply lookup_insert_ne. congruence.
Qed.

(** A registered hash holds the lines of a text that was registered under it. *)
Lemma register_all_registered (texts : list string)
    (sources : gmap string (list string)) (h : string) :
  h ∈ hash_of <$> texts ->
  exists text, text ∈ texts /\ hash_of text = h /\
    register_all texts sources !! h = Some (splitlines text).
Proof.
  revert sources. induction texts as [|text texts IH]; intros sources Hin.
  - rewrite fmap_nil in Hin. by apply elem_of_nil in Hin.
  - rewrite register_all_cons.
    destruct (decide (h ∈ hash_of <$> texts)) as [Hlater | Hnot].
    + destruct (IH (<[hash_of text := splitlines text]> sources) Hlater)
        as (text' & Hmem & Hhash & Hlook).
      exists text'. split; [apply elem_of_cons; by right | by split].
    + rewrite fmap_cons in Hin. apply elem_of_cons in Hin as [Heq | Hin]; [| done].
      exists text. split; [apply elem_of_cons; by left |]. split; [done |].
      rewrite (register_all_other _ _ _ Hnot). subst h. apply lookup_insert_eq.
Qed.

Lemma source_unregistered (sources : gmap string (list string)) (h : string) :
  sources !! h = None -> SourceTracker.source h sources = Raise (KeyError h).
Proof. intros Hnone. unfold SourceTracker.source. by rewrite Hnone. Qed.

(** C6: [source(hash)] raises the lookup failure ([KeyError]) for every hash
    that no [add_source] call registered and returns the stored lines of every
    registered hash; [with_context] with [after] given raises the same failure
    on a span whose hash is unregistered, and with only [before] given succeeds
    whatever the registry holds. *)
Theorem source_lookup_failure :
  (forall (texts : list string) (h : string),
     h ∉ hash_of <$> texts ->
     SourceTracker.source h (register_all texts SourceTracker.sources_init)
     = Raise (KeyError h)) /\
  (forall (texts : list string) (h : string),
     h ∈ hash_of <$> texts ->
     exists text, text ∈ texts /\ hash_of text = h /\
       register_all texts SourceTracker.sources_init !! h = Some (splitlines text) /\
       SourceTracker.source h (register_all texts SourceTracker.sources_init)
       = Ok (splitlines text)) /\
  (forall (texts : list string) (s : Span) (before : option Z) (A : Z),
     source_hash s ∉ hash_of <$> texts ->
     Span.with_context s before (Some A)
       (register_all texts SourceTracker.sources_init)
     = Raise (KeyError (source_hash s))) /\
  (forall (sources : gmap string (list string)) (s : Span) (B : Z),
     Span.with_context s (Some B) None sources =
       Ok {| start := start s; end_ := end_ s;
             source_hash := source_hash s; file := file s;
             context_start :=
               Some {| line := Z.max 0 (line (start s) - B); col := 0 |};
             context_end := context_end s |}).
Proof.
  assert (Hmiss : forall texts h, h ∉ hash_of <$> texts ->
            register_all texts SourceTracker.sources_init !! h = None).
  { intros texts h Hnot. rewrite (register_all_other _ _ _ Hnot).
    apply lookup_empty. }
  split; [| split; [| split]].
  - intros texts h Hnot. apply source_unregistered, Hmiss, Hnot.
  - intros texts h Hin.
    destruct (register_all_registered texts SourceTracker.sources_init h Hin)
      as (text & Hmem & Hhash & Hlook).
    exists text. repeat split; try done.
    unfold SourceTracker.source. by rewrite Hlook.
  - intros texts s before A Hnot. unfold Span.with_context.
    by rewrite (source_unregistered _ _ (Hmiss _ _ Hnot)).
  - intros sources s B. reflexivity.
Qed.

(** C7: registering the same text twice returns the same hash both times, the
    SHA-256 hex digest of its UTF-8 bytes; [source] of that hash gives the
    lines of the text after either call; and the second call leaves the
    registry exactly as the first one left it. *)
Theorem add_source_twice (s : string) (sources : gmap string (list string)) :
  let first := add_source s sources in
  let second := add_source s first.2 in
  first.1 = sha256_hexdigest (encode_utf8 s) /\
  second.1 = first.1 /\
  SourceTracker.source first.1 first.2 = Ok (splitlines s) /\
  SourceTracker.source second.1 second.2 = Ok (splitlines s) /\
  second.2 = first.2.
Proof.
  simpl. unfold SourceTracker.source. rewrite insert_insert_eq.
  rewrite lookup_insert_eq. repeat split.
Qed.

End SourceTrackerFacts.

(** A registry history run with stand-ins for the runtime's functions: every
    digest is ["d1"], lines are not split. *)
Lemma source_lookup_failure_witness :
  let sources :=
    SourceTracker.register_all (fun _ => []) (fun _ => "d1") (fun s => [s])
      ["a: b"] SourceTracker.sources_init in
  SourceTracker.source "d0" sources = Raise (KeyError "d0") /\
  SourceTracker.source "d1" sources = Ok ["a: b"] /\
  Span.with_context six_line_span None (Some 1) sources = Raise (KeyError "h").
Proof.
  destruct (source_lookup_failure (fun _ => []) (fun _ => "d1") (fun s => [s]))
    as (Hmiss & Hhit & Hctx & _).
  split; [| split].
  - apply (Hmiss ["a: b"] "d0"). by intros ?%list_elem_of_singleton.
  - destruct (Hhit ["a: b"] "d1") as (text & Hmem & _ & _ & Hsrc).
    + by apply list_elem_of_singleton.
    + apply list_elem_of_singleton in Hmem. by subst text.
  - apply (Hctx ["a: b"] six_line_span None 1).
    by intros ?%list_elem_of_singleton.
Defined.

(** * Span: which positions are 1-indexed *)

Lemma pos_1indexed_spec (p : Position) :
  pos_1indexed p = true <-> 1 <= line p /\ 1 <= col p.
Proof.
  unfold pos_1indexed. rewrite andb_true_iff, !bool_decide_eq_true. tauto.
Qed.

Lemma span_1indexed_spec (s : Span) :
  span_1indexed s = true <->
  pos_1indexed (start s) = true /\ pos_1indexed (end_ s) = true /\
  from_option pos_1indexed true (context_start s) = true /\
  from_option pos_1indexed true (context_end s) = true.
Proof. unfold span_1indexed. rewrite !andb_true_iff. tauto. Qed.

Lemma from_node_1indexed (node : ruamel.Node) (h : string) (f : option string) :
  0 <= ruamel.line (ruamel.start_mark node) ->
  0 <= ruamel.column (ruamel.start_mark node) ->
  0 <= ruamel.line (ruamel.end_mark node) ->
  0 <= ruamel.column (ruamel.end_mark node) ->
  span_1indexed (Span.from_node node h f) = true.
Proof.
  intros Hsl Hsc Hel Hec. apply span_1indexed_spec. simpl.
  rewrite !pos_1indexed_spec. simpl. repeat split; lia.
Qed.

Lemma extend_to_1indexed (s other : Span) (context_only : bool) :
  span_1indexed s = true -> span_1indexed other = true ->
  span_1indexed (Span.extend_to s other context_only) = true.
Proof.
  rewrite !span_1indexed_spec. intros (Hs & He & Hcs & Hce) (Hos & Hoe & Hocs & Hoce).
  destruct context_only; simpl; repeat split; try assumption.
  destruct (context_end other); simpl in *; assumption.
Qed.

(** C4, as the code has it: a span built from non-negative raw coordinates is
    1-indexed in every position, and [extend_to] keeps spans 1-indexed;
    [truncate] and [with_context] leave the positions they copy untouched, but
    each position they build themselves (the truncated end, [context_start],
    [context_end]) has column 0. *)
Theorem span_positions_by_design :
  (forall (node : ruamel.Node) (h : string) (f : option string),
     0 <= ruamel.line (ruamel.start_mark node) ->
     0 <= ruamel.column (ruamel.start_mark node) ->
     0 <= ruamel.line (ruamel.end_mark node) ->
     0 <= ruamel.column (ruamel.end_mark node) ->
     span_1indexed (Span.from_node node h f) = true) /\
  (forall (s other : Span) (context_only : bool),
     span_1indexed s = true -> span_1indexed other = true ->
     span_1indexed (Span.extend_to s other context_only) = true) /\
  (forall (s : Span) (N : Z),
     start (Span.truncate s N) = start s /\
     context_start (Span.truncate s N) = context_start s /\
     (line (end_ s) - line (start s) <= N -> Span.truncate s N = s) /\
     (line (end_ s) - line (start s) > N -> col (end_ (Span.truncate s N)) = 0)) /\
  (forall (s s' : Span) (before after : option Z)
          (sources : gmap string (list string)),
     Span.with_context s before after sources = Ok s' ->
     start s' = start s /\ end_ s' = end_ s /\
     (forall B, before = Some B ->
        exists p, context_start s' = Some p /\ col p = 0) /\
     (before = None -> context_start s' = context_start s) /\
     (forall A, after = Some A ->
        exists p, context_end s' = Some p /\ col p = 0) /\
     (after = None -> context_end s' = context_end s)).
Proof.
  split; [exact from_node_1indexed |].
  split; [exact extend_to_1indexed |].
  split.
  - intros s N. repeat split.
    + unfold Span.truncate. by case_bool_decide.
    + unfold Span.truncate. by case_bool_decide.
    + apply truncate_keep.
    + intros Hgt. by rewrite (truncate_cut s N Hgt).
  - intros s s' before after sources Hrun. unfold Span.with_context in Hrun.
    destruct after as [A|].
    + destruct (SourceTracker.source (source_hash s) sources) as [lines|e];
        simpl in Hrun; [| discriminate].
      injection Hrun as <-.
      destruct before as [B|]; simpl; repeat split;
        try discriminate; try (intros ? [= <-]); eauto.
    + injection Hrun as <-.
      destruct before as [B|]; simpl; repeat split;
        try discriminate; try (intros ? [= <-]); eauto.
Qed.

Lemma span_positions_by_design_witness :
  span_1indexed six_line_span = true /\
  col (end_ (Span.truncate six_line_span 2)) = 0.
Proof.
  destruct span_positions_by_design as (Hnode & _ & Htrunc & _).
  split.
  - apply Hnode; simpl; lia.
  - destruct (Htrunc six_line_span 2) as (_ & _ & _ & Hcut).
    apply Hcut. vm_compute. reflexivity.
Defined.

(** C4 as stated fails: truncating a 1-indexed span, or widening its context,
    yields positions with column 0 (and here a context line 0). *)
Lemma truncate_breaks_1indexed :
  span_1indexed six_line_span = true /\
  span_1indexed (Span.truncate six_line_span 2) = false /\
  end_ (Span.truncate six_line_span 2) = {| line := 3; col := 0 |} /\
  Span.with_context six_line_span (Some 4) None three_line_sources =
    Ok {| start := {| line := 1; col := 1 |}; end_ := {| line := 6; col := 4 |};
          source_hash := "h"; file := Some "rules.yaml";
          context_start := Some {| line := 0; col := 0 |};
          context_end := None |}.
Proof. repeat split. Qed.

(** * YamlMap: lookup by string, assignment by object *)

Lemma eq_str_true (v : PyVal) (key : string) :
  eq_str v key = true <-> v = PStr key.
Proof.
  destruct v; simpl; try (split; [discriminate | intros [=]]).
  rewrite bool_decide_eq_true. split; [by intros -> | by intros [= ->]].
Qed.

Lemma eq_str_false (v : PyVal) (key : string) :
  eq_str v key = false <-> v <> PStr key.
Proof.
  rewrite <- eq_str_true. destruct (eq_str v key); split; congruence.
Qed.

Lemma get_nil (key : string) : YamlMap.get (mkYamlMap []) key = None.
Proof. reflexivity. Qed.

Lemma get_cons (k0 v0 : YamlTree) (d : list (YamlTree * YamlTree)) (key : string) :
  YamlMap.get (mkYamlMap ((k0, v0) :: d)) key =
  if eq_str (value k0) key then Some v0 else YamlMap.get (mkYamlMap d) key.
Proof.
  unfold YamlMap.get. simpl. rewrite filter_cons. simpl.
  destruct (eq_str (value k0) key); by case_decide.
Qed.

Lemma get_app (d d' : list (YamlTree * YamlTree)) (key : string) :
  YamlMap.get (mkYamlMap (d ++ d')) key =
  match YamlMap.get (mkYamlMap d) key with
  | Some v => Some v
  | None => YamlMap.get (mkYamlMap d') key
  end.
Proof.
  induction d as [|[k0 v0] d IH]; [reflexivity |].
  rewrite <- app_comm_cons, !get_cons. by destruct (eq_str (value k0) key).
Qed.

(** [get] answers [None] exactly when no key holds the string. *)
Lemma get_None (m : YamlMap) (key : string) :
  YamlMap.get m key = None <->
  Forall (fun kv => value kv.1 <> PStr key) (_internal m).
Proof.
  destruct m as [d]. simpl. induction d as [|[k0 v0] d IH].
  - split; [constructor | reflexivity].
  - rewrite get_cons, Forall_cons. simpl. rewrite <- eq_str_false.
    destruct (eq_str (value k0) key); [split; [discriminate | intros [[=] _]] |].
    rewrite IH. tauto.
Qed.

(** [get] answers the value of the first entry, in insertion order, whose key
    holds the string. *)
Lemma get_Some (m : YamlMap) (key : string) (v : YamlTree) :
  YamlMap.get m key = Some v <->
  exists pre k0 post,
    _internal m = pre ++ (k0, v) :: post /\ value k0 = PStr key /\
    Forall (fun kv => value kv.1 <> PStr key) pre.
Proof.
  destruct m as [d]. simpl. induction d as [|[k0 v0] d IH].
  - split; [discriminate |]. intros (pre & k1 & post & Heq & _).
    by destruct pre.
  - rewrite get_cons. destruct (eq_str (value k0) key) eqn:Hk.
    + apply eq_str_true in Hk. split.
      * intros [= <-]. exists [], k0, d. repeat split; [done | constructor].
      * intros (pre & k1 & post & Heq & Hval & Hpre).
        destruct pre as [|[k2 v2] pre]; simpl in Heq.
        -- by injection Heq as _ <- _.
        -- injection Heq as <- <- _. apply Forall_cons in Hpre as [Hne _]. done.
    + apply eq_str_false in Hk. rewrite IH. split.
      * intros (pre & k1 & post & -> & Hval & Hpre).
        exists ((k0, v0) :: pre), k1, post. repeat split; [done |].
        by constructor.
      * intros (pre & k1 & post & Heq & Hval & Hpre).
        destruct pre as [|[k2 v2] pre]; simpl in Heq.
        -- injection Heq as -> _ _. done.
        -- injection Heq as _ _ ->. apply Forall_cons in Hpre as [_ Hpre].
           by exists pre, k1, post.
Qed.

(** [d[k] = v] appends when no key of [d] equals [k]. *)
Lemma dict_setitem_fresh {K V : Type} (eqb : K -> K -> bool)
    (d : list (K * V)) (k : K) (v : V) :
  Forall (fun kv => eqb kv.1 k = false) d ->
  dict_setitem eqb d k v = d ++ [(k, v)].
Proof.
  induction 1 as [|[k' v'] d Hk' _ IH]; [reflexivity |].
  simpl in *. by rewrite Hk', IH.
Qed.

(** [d[k] = v] replaces the value in place when the key is there. *)
Lemma dict_setitem_present {K V : Type} (eqb : K -> K -> bool)
    (pre post : list (K * V)) (k k' : K) (v v' : V) :
  Forall (fun kv => eqb kv.1 k = false) pre -> eqb k' k = true ->
  dict_setitem eqb (pre ++ (k', v') :: post) k v = pre ++ (k', v) :: post.
Proof.
  intros Hpre Hk. induction Hpre as [|[k0 v0] pre Hk0 _ IH]; simpl in *.
  - by rewrite Hk.
  - by rewrite Hk0, IH.
Qed.

Lemma is_false (a b : YamlTree) : is_ a b = false <-> tid a <> tid b.
Proof. unfold is_. apply Nat.eqb_neq. Qed.

(** Storing under a key object the map already has replaces that entry's
    value where it stands: assignment is by object, not by string. *)
Lemma setitem_same_object_overwrites (pre post : list (YamlTree * YamlTree))
    (k v v' : YamlTree) :
  Forall (fun kv => tid kv.1 <> tid k) pre ->
  YamlMap.__setitem__ (mkYamlMap (pre ++ (k, v) :: post)) k v' =
  mkYamlMap (pre ++ (k, v') :: post).
Proof.
  intros Hpre. unfold YamlMap.__setitem__. simpl. f_equal.
  apply dict_setitem_present.
  - eapply Forall_impl; [exact Hpre |]. intros kv Hne. by apply is_false.
  - unfold is_. apply Nat.eqb_refl.
Qed.

(** C5: a map holding two entries whose keys both hold ["a"] yields both, in
    insertion order, from [items()], and [get("a")] is the value of the first;
    such a map is what storing two distinct key objects leaves.  In general
    [get(k)] is the value of the first entry in insertion order whose key holds
    the string [k], and [None] when there is none. *)
Theorem get_first_match :
  (forall (k1 k2 one two : YamlTree),
     value k1 = PStr "a" -> value k2 = PStr "a" ->
     let m := mkYamlMap [(k1, one); (k2, two)] in
     YamlMap.items m = [(k1, one); (k2, two)] /\
     length (YamlMap.items m) = 2%nat /\
     YamlMap.get m "a" = Some one /\
     (tid k1 <> tid k2 ->
      YamlMap.__setitem__ (YamlMap.__setitem__ (mkYamlMap []) k1 one) k2 two = m)) /\
  (forall (m : YamlMap) (key : string) (v : YamlTree),
     YamlMap.get m key = Some v <->
     exists pre k0 post,
       YamlMap.items m = pre ++ (k0, v) :: post /\ value k0 = PStr key /\
       Forall (fun kv => value kv.1 <> PStr key) pre) /\
  (forall (m : YamlMap) (key : string),
     YamlMap.get m key = None <->
     Forall (fun kv => value kv.1 <> PStr key) (YamlMap.items m)).
Proof.
  split; [| split; [exact get_Some | exact get_None]].
  intros k1 k2 one two Hk1 Hk2 m. repeat split.
  - unfold m. rewrite get_cons, Hk1. reflexivity.
  - intros Hne. unfold m, YamlMap.__setitem__. simpl.
    apply is_false in Hne. by rewrite Hne.
Qed.

Lemma get_first_match_witness :
  let m := mkYamlMap [(key_a 0, int_tree 1 1); (key_a 2, int_tree 3 2)] in
  length (YamlMap.items m) = 2%nat /\
  YamlMap.get m "a" = Some (int_tree 1 1) /\
  YamlMap.__setitem__
    (YamlMap.__setitem__ (mkYamlMap []) (key_a 0) (int_tree 1 1))
    (key_a 2) (int_tree 3 2) = m.
Proof.
  destruct get_first_match as (Htwo & _ & _).
  destruct (Htwo (key_a 0) (key_a 2) (int_tree 1 1) (int_tree 3 2) eq_refl eq_refl)
    as (_ & Hlen & Hget & Hbuilt).
  split; [exact Hlen |]. split; [exact Hget |]. apply Hbuilt. simpl. lia.
Defined.

(** C8: storing, under a key tree just constructed (so at an address no key of
    the map has) and holding the string [k], into a map that already answers
    [get(k)], appends the entry: [items()] is the old items followed by the new
    pair, and [get(k)] is still the value of the old first match. *)
Theorem setitem_fresh_key_appends (m : YamlMap) (k : string) (sp : Span)
    (v first : YamlTree) (next : nat) :
  Forall (fun kv => (tid kv.1 < next)%nat) (YamlMap.items m) ->
  YamlMap.get m k = Some first ->
  let key := (YamlTree.__init__ (PStr k) sp next).1 in
  let m' := YamlMap.__setitem__ m key v in
  value key = PStr k /\
  YamlMap.items m' = YamlMap.items m ++ [(key, v)] /\
  YamlMap.get m' k = Some first.
Proof.
  intros Hold Hget key m'. destruct m as [d]. simpl in *.
  assert (Happ : dict_setitem is_ d key v = d ++ [(key, v)]).
  { apply dict_setitem_fresh. eapply Forall_impl; [exact Hold |].
    intros [k0 v0] Hlt. apply is_false. simpl in *. lia. }
  split; [reflexivity |]. split; [exact Happ |].
  unfold m', YamlMap.__setitem__. simpl. rewrite Happ, get_app, Hget. reflexivity.
Qed.

Lemma setitem_fresh_key_appends_witness :
  let m := mkYamlMap [(key_a 0, int_tree 1 1)] in
  let m' := YamlMap.__setitem__ m (key_a 2) (int_tree 3 2) in
  YamlMap.items m' = [(key_a 0, int_tree 1 1); (key_a 2, int_tree 3 2)] /\
  YamlMap.get m' "a" = Some (int_tree 1 1).
Proof.
  destruct (setitem_fresh_key_appends
              (mkYamlMap [(key_a 0, int_tree 1 1)]) "a" six_line_span
              (int_tree 3 2) (int_tree 1 1) 2)
    as (_ & Hitems & Hget).
  - repeat constructor.
  - reflexivity.
  - split; [exact Hitems | exact Hget].
Defined.

(** * YamlTree: wrapping and unrolling *)

Lemma wrap_PList (elems : list PyVal) (sp : Span) :
  YamlTree.wrap (PList elems) sp =
  (new! trees := wrap_elems sp elems in YamlTree.__init__ (PList trees) sp).
Proof. reflexivity. Qed.

Lemma wrap_PDict (entries : list (string * PyVal)) (sp : Span) :
  YamlTree.wrap (PDict entries) sp =
  (new! internal := wrap_entries sp entries [] in
   YamlTree.__init__ (PMap (mkYamlMap internal)) sp).
Proof. reflexivity. Qed.

(** [YamlTree.wrap(k, span)] on a [str] key is the constructor call that the
    dict branch of [wrap] makes. *)
Lemma wrap_key (k : string) (sp : Span) :
  YamlTree.wrap (PStr k) sp = YamlTree.__init__ (PStr k) sp.
Proof. reflexivity. Qed.

Section UnrollFacts.
Variable repr : PyVal -> string.

Lemma unroll_PList (i : nat) (elems : list PyVal) (sp : Span) :
  YamlTree.unroll repr (mkYamlTree i (PList elems) sp) =
  (let! plain := unroll_elems repr elems in Ok (PList plain)).
Proof. reflexivity. Qed.

Lemma unroll_PMap (i : nat) (internal : list (YamlTree * YamlTree)) (sp : Span) :
  YamlTree.unroll repr (mkYamlTree i (PMap (mkYamlMap internal)) sp) =
  (let! plain := unroll_items repr internal [] in Ok (PDict plain)).
Proof. reflexivity. Qed.

(** Running a bind: the continuation gets the value and the advanced address. *)
Lemma abind_run {A B : Type} (c : alloc A) (k : A -> alloc B) (next : nat) :
  abind c k next = k (c next).1 (c next).2.
Proof. unfold abind. by destruct (c next). Qed.

(** Allocation only moves the next free address forward. *)
Lemma wrap_mono (v : PyVal) (sp : Span) (next : nat) :
  (next <= (YamlTree.wrap v sp next).2)%nat.
Proof.
  revert next. induction v as [s|z| |bits|elems IH|entries IH|t|m]
    using PyVal_nested_ind; intros next; simpl; try lia.
  - change (next <= (YamlTree.wrap (PList elems) sp next).2)%nat.
    rewrite wrap_PList, abind_run. simpl.
    enough (next <= (wrap_elems sp elems next).2)%nat by lia.
    revert next. induction IH as [|x elems Hx _ IHelems]; intros next; simpl; [lia |].
    rewrite !abind_run. simpl. specialize (Hx next).
    specialize (IHelems (YamlTree.wrap x sp next).2). lia.
  - change (next <= (YamlTree.wrap (PDict entries) sp next).2)%nat.
    rewrite wrap_PDict, abind_run. simpl.
    enough (forall acc, next <= (wrap_entries sp entries acc next).2)%nat as H
      by (specialize (H []); lia).
    revert next. induction IH as [|[k x] entries Hx _ IHentries];
      intros next acc; simpl; [lia |].
    rewrite !abind_run. simpl in *. specialize (Hx (S next)).
    specialize (IHentries (YamlTree.wrap x sp (S next)).2
                  (dict_setitem is_ acc (mkYamlTree next (PStr k) sp)
                     (YamlTree.wrap x sp (S next)).1)).
    lia.
Qed.

(** The keys [wrap] builds for a [dict] are new objects, so storing them
    appends: the internal [dict] is the list of the pairs in order. *)
Lemma wrap_entries_pairs (sp : Span) (entries : list (string * PyVal))
    (acc : list (YamlTree * YamlTree)) (next : nat) :
  Forall (fun kv => (tid kv.1 < next)%nat) acc ->
  wrap_entries sp entries acc next =
  (acc ++ (wrap_pairs sp entries next).1, (wrap_pairs sp entries next).2).
Proof.
  revert acc next. induction entries as [|[k v] entries IH]; intros acc next Hacc.
  - simpl. unfold aret. simpl. by rewrite app_nil_r.
  - simpl. rewrite !abind_run. simpl.
    set (kt := mkYamlTree next (PStr k) sp).
    set (vt := (YamlTree.wrap v sp (S next)).1).
    set (next' := (YamlTree.wrap v sp (S next)).2).
    assert (Hmono : (S next <= next')%nat) by apply wrap_mono.
    rewrite (dict_setitem_fresh is_ acc kt vt).
    2:{ eapply Forall_impl; [exact Hacc |]. intros [k0 v0] Hlt.
        apply is_false. simpl in *. lia. }
    rewrite IH.
    + unfold aret. simpl. by rewrite <- app_assoc.
    + apply Forall_app. split.
      * eapply Forall_impl; [exact Hacc |]. intros [k0 v0] Hlt. simpl in *. lia.
      * repeat constructor. simpl. lia.
Qed.

Lemma unroll_wrap_elems (sp : Span) (elems : list PyVal) :
  Forall (fun x => forall next,
            YamlTree.unroll repr (YamlTree.wrap x sp next).1 = unroll_outcome x)
         elems ->
  forall next,
    unroll_elems repr (wrap_elems sp elems next).1 =
    if forallb supported elems then Ok elems else Raise invalid_tree.
Proof.
  induction 1 as [|x elems Hx _ IH]; intros next; [reflexivity |].
  simpl. rewrite !abind_run. simpl. rewrite Hx, IH. unfold unroll_outcome.
  destruct (supported x); [| reflexivity]. simpl.
  by destruct (forallb supported elems).
Qed.

Lemma unroll_wrap_pairs (sp : Span) (entries : list (string * PyVal)) :
  Forall (fun kv => forall next,
            YamlTree.unroll repr (YamlTree.wrap kv.2 sp next).1 = unroll_outcome kv.2)
         entries ->
  forall (acc : list (string * PyVal)) (next : nat),
    NoDup (acc.*1 ++ entries.*1) ->
    unroll_items repr (wrap_pairs sp entries next).1 acc =
    if forallb (fun kv => supported kv.2) entries
    then Ok (acc ++ entries) else Raise invalid_tree.
Proof.
  induction 1 as [|[k v] entries Hv _ IH]; intros acc next Hnodup.
  - simpl. by rewrite app_nil_r.
  - simpl. rewrite !abind_run. simpl in *. rewrite Hv. unfold unroll_outcome.
    destruct (supported v); [| reflexivity]. simpl.
    rewrite (dict_setitem_fresh str_eqb acc k v).
    2:{ apply NoDup_app in Hnodup as (_ & Hfresh & _).
        apply Forall_forall. intros [k0 v0] Hin. unfold str_eqb. simpl.
        apply bool_decide_eq_false_2. intros ->.
        apply (Hfresh k); [| apply elem_of_cons; by left].
        apply list_elem_of_fmap. by exists (k, v0). }
    rewrite IH.
    + by rewrite <- app_assoc.
    + rewrite fmap_app. simpl. by rewrite <- app_assoc.
Qed.

Lemma forallb_Forall_true {A : Type} (f : A -> bool) (l : list A) :
  forallb f l = true <-> Forall (fun x => f x = true) l.
Proof.
  rewrite forallb_forall, Forall_forall.
  split; intros H x Hx; apply H; by apply list_elem_of_In.
Qed.

(** Unrolling what [wrap] built from a plain value. *)
Lemma unroll_wrap (v : PyVal) :
  plain v = true ->
  forall (sp : Span) (next : nat),
    YamlTree.unroll repr (YamlTree.wrap v sp next).1 = unroll_outcome v.
Proof.
  induction v as [s|z| |bits|elems IH|entries IH|t|m]
    using PyVal_nested_ind; intros Hplain sp next; try reflexivity;
    try discriminate.
  - rewrite wrap_PList, abind_run. simpl fst. rewrite unroll_PList.
    rewrite unroll_wrap_elems.
    + unfold unroll_outcome. simpl. by destruct (forallb supported elems).
    + simpl in Hplain. apply forallb_Forall_true in Hplain.
      apply Forall_forall. intros x Hx next'.
      rewrite Forall_forall in IH, Hplain.
      apply IH; [done |]. by apply Hplain.
  - simpl in Hplain. apply andb_true_iff in Hplain as [Hnodup Hplain].
    apply bool_decide_eq_true in Hnodup.
    rewrite wrap_PDict, abind_run.
    rewrite wrap_entries_pairs by constructor. simpl fst. rewrite unroll_PMap.
    rewrite unroll_wrap_pairs.
    + unfold unroll_outcome. simpl. rewrite bool_decide_eq_true_2 by done. simpl.
      by destruct (forallb (fun kv => supported kv.2) entries).
    + apply forallb_Forall_true in Hplain. apply Forall_forall. intros kv Hkv next'.
      rewrite Forall_forall in IH, Hplain.
      apply IH; [done |]. by apply Hplain.
    + done.
Qed.

Lemma supported_plain (v : PyVal) : supported v = true -> plain v = true.
Proof.
  induction v as [s|z| |bits|elems IH|entries IH|t|m]
    using PyVal_nested_ind; simpl; try done.
  - rewrite !forallb_Forall_true, !Forall_forall. intros Hs x Hx.
    rewrite Forall_forall in IH. apply IH; [done | by apply Hs].
  - rewrite !andb_true_iff, !forallb_Forall_true, !Forall_forall.
    intros [Hnd Hs]. split; [done |].
    intros kv Hkv. rewrite Forall_forall in IH. apply IH; [done | by apply Hs].
Qed.

(** C1: for every plain nested value built only from strings, integers, lists
    and string-keyed mappings, and every span, unrolling the wrapped value
    gives the value back. *)
Theorem unroll_wrap_roundtrip (v : PyVal) (sp : Span) (next : nat) :
  supported v = true ->
  YamlTree.unroll repr (YamlTree.wrap v sp next).1 = Ok v.
Proof.
  intros Hsup. rewrite (unroll_wrap v (supported_plain v Hsup)).
  unfold unroll_outcome. by rewrite Hsup.
Qed.

(** C9: [wrap] returns a tree for every value; a value that is not a list, a
    dict or a [YamlTree] becomes a leaf holding it, unchecked; unrolling the
    leaf made from [None] or a float raises [ValueError], and so does
    unrolling the tree of any plain value with such a leaf inside: the shape
    check is [unroll]'s alone. *)
Theorem wrap_defers_validation :
  (forall (v : PyVal) (sp : Span) (next : nat),
     exists t next', YamlTree.wrap v sp next = (t, next')) /\
  (forall (v : PyVal) (sp : Span) (next : nat),
     (forall elems, v <> PList elems) -> (forall entries, v <> PDict entries) ->
     (forall t, v <> PTree t) ->
     YamlTree.wrap v sp next = (mkYamlTree next v sp, S next)) /\
  (forall (v : PyVal) (sp : Span) (next : nat),
     v = PNone \/ (exists bits, v = PFloat bits) ->
     YamlTree.unroll repr (YamlTree.wrap v sp next).1 = Raise invalid_tree) /\
  (forall (v : PyVal) (sp : Span) (next : nat),
     plain v = true -> supported v = false ->
     YamlTree.unroll repr (YamlTree.wrap v sp next).1 = Raise invalid_tree).
Proof.
  split; [| split; [| split]].
  - intros v sp next. destruct (YamlTree.wrap v sp next) as [t next'] eqn:Hw.
    by exists t, next'.
  - intros v sp next Hlist Hdict Htree.
    destruct v; try reflexivity; [by destruct (Hlist elems) | by destruct (Hdict entries) | by destruct (Htree t)].
  - intros v sp next [-> | [bits ->]]; reflexivity.
  - intros v sp next Hplain Hunsup. rewrite (unroll_wrap v Hplain).
    unfold unroll_outcome. by rewrite Hunsup.
Qed.

(** Keys of a [dict] after [d[k] = v]. *)
Lemma dict_setitem_keys {V : Type} (d : list (string * V)) (k k' : string) (v : V) :
  k' ∈ (dict_setitem str_eqb d k v).*1 <-> k' ∈ d.*1 \/ k' = k.
Proof.
  induction d as [|[k0 v0] d IH]; simpl.
  - rewrite list_elem_of_singleton, elem_of_nil. tauto.
  - unfold str_eqb at 1. case_bool_decide as Hk; simpl.
    + subst k0. rewrite elem_of_cons. tauto.
    + rewrite !elem_of_cons, IH. tauto.
Qed.

Lemma foldl_setitem_keys {V : Type} (pairs acc : list (string * V)) (k : string) :
  k ∈ (foldl (fun d kv => dict_setitem str_eqb d kv.1 kv.2) acc pairs).*1 <->
  k ∈ acc.*1 \/ k ∈ pairs.*1.
Proof.
  revert acc. induction pairs as [|[k0 v0] pairs IH]; intros acc; simpl.
  - rewrite elem_of_nil. tauto.
  - rewrite IH, dict_setitem_keys, elem_of_cons. tauto.
Qed.

(** The keys of [dict(pairs)] are the first components of the pairs. *)
Lemma dict_of_keys {V : Type} (pairs : list (string * V)) (k : string) :
  k ∈ (dict_of pairs).*1 <-> k ∈ pairs.*1.
Proof.
  unfold dict_of. rewrite foldl_setitem_keys. simpl. rewrite elem_of_nil. tauto.
Qed.

(** The mapping loop of [unroll] stores each value under [str()] of what
    its key unrolls to. *)
Lemma unroll_items_str (internal : list (YamlTree * YamlTree))
    (unrolled : list (PyVal * PyVal)) :
  Forall2 (fun kv uv => YamlTree.unroll repr kv.1 = Ok uv.1 /\
                        YamlTree.unroll repr kv.2 = Ok uv.2) internal unrolled ->
  forall acc,
    unroll_items repr internal acc =
    Ok (foldl (fun d kv => dict_setitem str_eqb d kv.1 kv.2) acc
          (map (fun uv => (YamlTree.str repr uv.1, uv.2)) unrolled)).
Proof.
  induction 1 as [|[k v] [ku vu] internal unrolled [Hk Hv] _ IH]; intros acc.
  - reflexivity.
  - simpl in *. rewrite Hk, Hv. simpl. apply IH.
Qed.

(** C10: unrolling a mapping node whose keys and values unroll gives the
    [dict] of the values under [str()] of the unrolled keys, so every key of
    the result is such a string; [str(7)] is ["7"], a key that unrolls to a
    string keeps it, and a one-entry map keyed by a tree holding 7 unrolls to
    a dict keyed by ["7"]. *)
Theorem unroll_mapping_str_keys :
  (forall (internal : list (YamlTree * YamlTree))
          (unrolled : list (PyVal * PyVal)) (i : nat) (sp : Span),
     Forall2 (fun kv uv => YamlTree.unroll repr kv.1 = Ok uv.1 /\
                           YamlTree.unroll repr kv.2 = Ok uv.2) internal unrolled ->
     exists plain,
       YamlTree.unroll repr (mkYamlTree i (PMap (mkYamlMap internal)) sp)
       = Ok (PDict plain) /\
       plain = dict_of (map (fun uv => (YamlTree.str repr uv.1, uv.2)) unrolled) /\
       forall k, k ∈ plain.*1 <->
                 exists uv, uv ∈ unrolled /\ k = YamlTree.str repr uv.1) /\
  YamlTree.str repr (PInt 7) = "7" /\
  (forall s, YamlTree.str repr (PStr s) = s) /\
  (forall (a i : nat) (sp sp' : Span) (v : YamlTree) (vu : PyVal),
     YamlTree.unroll repr v = Ok vu ->
     YamlTree.unroll repr
       (mkYamlTree i (PMap (mkYamlMap [(mkYamlTree a (PInt 7) sp, v)])) sp')
     = Ok (PDict [("7", vu)])) /\
  (forall (a i : nat) (sp sp' : Span) (s : string) (v : YamlTree) (vu : PyVal),
     YamlTree.unroll repr v = Ok vu ->
     YamlTree.unroll repr
       (mkYamlTree i (PMap (mkYamlMap [(mkYamlTree a (PStr s) sp, v)])) sp')
     = Ok (PDict [(s, vu)])).
Proof.
  split; [| split; [reflexivity | split; [reflexivity | split]]].
  - intros internal unrolled i sp Hall. eexists. split; [| split; [reflexivity |]].
    + rewrite unroll_PMap, (unroll_items_str _ _ Hall). reflexivity.
    + intros k. rewrite dict_of_keys, <- list_fmap_compose, list_elem_of_fmap.
      split; intros (uv & H1 & H2); exists uv; done.
  - intros a i sp sp' v vu Hv. rewrite unroll_PMap. simpl. by rewrite Hv.
  - intros a i sp sp' s v vu Hv. rewrite unroll_PMap. simpl. by rewrite Hv.
Qed.
End UnrollFacts.

(** The witnesses below run [unroll] with [type_name] standing in for the
    runtime's [repr]. *)
Lemma unroll_wrap_roundtrip_witness :
  YamlTree.unroll type_name (YamlTree.wrap rule_value six_line_span 0%nat).1
  = Ok rule_value.
Proof.
  apply (unroll_wrap_roundtrip type_name rule_value six_line_span 0%nat).
  vm_compute. reflexivity.
Defined.

Lemma wrap_defers_validation_witness :
  YamlTree.wrap PNone six_line_span 5%nat = (mkYamlTree 5 PNone six_line_span, 6%nat) /\
  YamlTree.unroll type_name (YamlTree.wrap (PFloat 0) six_line_span 5%nat).1
  = Raise invalid_tree /\
  YamlTree.unroll type_name
    (YamlTree.wrap (PList [PStr "x"; PNone]) six_line_span 0%nat).1
  = Raise invalid_tree.
Proof.
  destruct (wrap_defers_validation type_name) as (_ & Hleaf & Hraise & Hdeep).
  split; [| split].
  - apply Hleaf; discriminate.
  - apply Hraise. right. by exists 0%N.
  - apply Hdeep; vm_compute; reflexivity.
Defined.

Lemma unroll_mapping_str_keys_witness :
  YamlTree.unroll type_name seven_map = Ok (PDict [("7", PStr "x")]).
Proof.
  destruct (unroll_mapping_str_keys type_name) as (_ & _ & _ & Hseven & _).
  apply (Hseven 0%nat 2%nat six_line_span six_line_span
           (mkYamlTree 1 (PStr "x") six_line_span) (PStr "x")).
  reflexivity.
Defined.

(** * Further properties: Position and Span *)

(** X1: [next_line] and [previous_line] undo each other and keep the column;
    nothing clamps the line: [next_line] keeps a position 1-indexed, while
    [previous_line] of a position on line 1 is on line 0. *)
Theorem next_previous_line (p : Position) :
  Position.previous_line (Position.next_line p) = p /\
  Position.next_line (Position.previous_line p) = p /\
  col (Position.next_line p) = col p /\
  col (Position.previous_line p) = col p /\
  (pos_1indexed p = true -> pos_1indexed (Position.next_line p) = true) /\
  (line p = 1 -> line (Position.previous_line p) = 0 /\
                 pos_1indexed (Position.previous_line p) = false).
Proof.
  destruct p as [l c]. unfold Position.previous_line, Position.next_line. simpl.
  repeat split.
  - f_equal. lia.
  - f_equal. lia.
  - rewrite !pos_1indexed_spec. simpl. lia.
  - simpl in *. lia.
  - simpl in *. subst l. reflexivity.
Qed.



(** X3: truncating twice is truncating once to the smaller bound; in
    particular [truncate] is idempotent. *)
Theorem truncate_truncate (s : Span) (N M : Z) :
  Span.truncate (Span.truncate s N) M = Span.truncate s (Z.min N M).
Proof.
  destruct (Z_le_gt_dec (line (end_ s) - line (start s)) N) as [Hle | Hgt].
  - rewrite (truncate_keep s N Hle).
    destruct (Z_le_gt_dec (line (end_ s) - line (start s)) M) as [HleM | HgtM].
    + rewrite !truncate_keep; [reflexivity | lia | lia].
    + rewrite !truncate_cut by lia. repeat f_equal. lia.
  - rewrite (truncate_cut s N Hgt).
    destruct (Z_le_gt_dec N M) as [HNM | HNM].
    + rewrite truncate_keep by (simpl; lia).
      rewrite (truncate_cut s (Z.min N M)) by lia. repeat f_equal. lia.
    + rewrite truncate_cut by (simpl; lia). simpl.
      rewrite (truncate_cut s (Z.min N M)) by lia. repeat f_equal. lia.
Qed.

(** X4: the truncated span covers at most [lines] line steps from its start,
    as the docstring says, and its end line is never after the original end. *)
Theorem truncate_at_most (s : Span) (N : Z) :
  line (end_ (Span.truncate s N)) - line (start (Span.truncate s N)) <= N /\
  line (end_ (Span.truncate s N)) <= line (end_ s).
Proof.
  destruct (Z_le_gt_dec (line (end_ s) - line (start s)) N) as [Hle | Hgt].
  - rewrite (truncate_keep s N Hle). lia.
  - rewrite (truncate_cut s N Hgt). simpl. lia.
Qed.


(** X6: widening before and after in one call is widening before and then
    after, or after and then before, failures included. *)
Theorem with_context_split (s : Span) (before after : option Z)
    (sources : gmap string (list string)) :
  Span.with_context s before after sources =
    rbind (Span.with_context s before None sources)
          (fun s' => Span.with_context s' None after sources) /\
  Span.with_context s before after sources =
    rbind (Span.with_context s None after sources)
          (fun s' => Span.with_context s' before None sources).
Proof.
  unfold Span.with_context, SourceTracker.source.
  destruct before, after; simpl; try (split; reflexivity);
    destruct (sources !! source_hash s); split; reflexivity.
Qed.

(** X7: the context lines [with_context] computes stay inside the source:
    [context_start] is on a line from 0 up, [context_end] on a line up to the
    number of registered lines; for non-negative widths on a span inside the
    source the context encloses the span. *)
Theorem with_context_bounds (s s' : Span) (before after : option Z)
    (sources : gmap string (list string)) (lines : list string) :
  sources !! source_hash s = Some lines ->
  Span.with_context s before after sources = Ok s' ->
  (forall B, before = Some B ->
     exists p, context_start s' = Some p /\ 0 <= line p /\
       (0 <= B -> 0 <= line (start s) -> line p <= line (start s))) /\
  (forall A, after = Some A ->
     exists p, context_end s' = Some p /\ line p <= Z.of_nat (length lines) /\
       (0 <= A -> line (end_ s) <= Z.of_nat (length lines) ->
        line (end_ s) <= line p)).
Proof.
  intros Hreg Hrun. rewrite (with_context_registered _ _ _ _ _ Hreg) in Hrun.
  injection Hrun as <-. simpl. split.
  - intros B ->. eexists. split; [reflexivity |]. simpl. lia.
  - intros A ->. eexists. split; [reflexivity |]. simpl. lia.
Qed.

Lemma with_context_bounds_witness :
  exists s' p q,
    Span.with_context six_line_span (Some 4) (Some 2) three_line_sources = Ok s' /\
    context_start s' = Some p /\ context_end s' = Some q /\
    0 <= line p /\ line q <= 3.
Proof.
  destruct (Span.with_context six_line_span (Some 4) (Some 2) three_line_sources)
    as [s'|] eqn:Hrun; [| discriminate Hrun].
  destruct (with_context_bounds six_line_span s' (Some 4) (Some 2)
              three_line_sources ["rules:"; "  - id: x"; "    pattern: y"]
              eq_refl Hrun) as [Hb Ha].
  destruct (Hb 4 eq_refl) as (p & Hp & Hp0 & _).
  destruct (Ha 2 eq_refl) as (q & Hq & HqL & _).
  exists s', p, q. split; [reflexivity |]. repeat split; assumption.
Defined.

(** * Further properties: SourceTracker *)

Section SourceTrackerMore.
Variable encode_utf8 : string -> list Byte.byte.
Variable sha256_hexdigest : list Byte.byte -> string.
Variable splitlines : string -> list string.

Let hash_of (text : string) : string :=
  SourceTracker._src_to_hash encode_utf8 sha256_hexdigest (inl text).
Let add_source := SourceTracker.add_source encode_utf8 sha256_hexdigest splitlines.
Let register_all := SourceTracker.register_all encode_utf8 sha256_hexdigest splitlines.

Lemma register_all_is_Some (texts : list string)
    (sources : gmap string (list string)) (h : string) :
  is_Some (sources !! h) -> is_Some (register_all texts sources !! h).
Proof.
  revert sources. induction texts as [|text texts IH]; intros sources Hsome.
  - exact Hsome.
  - change (is_Some (register_all texts
                       (<[hash_of text := splitlines text]> sources) !! h)).
    apply IH. apply lookup_insert_is_Some.
    destruct (decide (hash_of text = h)); [by left | by right].
Qed.

(** X8: the registry never forgets: a hash that resolves keeps resolving
    after any further [add_source] calls, and to the same lines when none of
    the new texts has that hash. *)
Theorem source_stays_registered (texts : list string)
    (sources : gmap string (list string)) (h : string) (lines : list string) :
  SourceTracker.source h sources = Ok lines ->
  (exists lines', SourceTracker.source h (register_all texts sources) = Ok lines') /\
  (h ∉ hash_of <$> texts ->
   SourceTracker.source h (register_all texts sources) = Ok lines).
Proof.
  unfold SourceTracker.source. intros Hsrc.
  destruct (sources !! h) as [l|] eqn:Hl; [| discriminate]. injection Hsrc as ->.
  split.
  - destruct (register_all_is_Some texts sources h) as [lines' Hl'].
    + by rewrite Hl.
    + exists lines'. by rewrite Hl'.
  - intros Hnot. unfold register_all.
    rewrite (register_all_other encode_utf8 sha256_hexdigest splitlines
               texts sources h Hnot).
    by rewrite Hl.
Qed.

(** X9: registering two texts with different hashes gives the same registry
    in either order; with equal hashes the later text's lines are kept. *)
Theorem add_source_order (s1 s2 : string) (sources : gmap string (list string)) :
  (hash_of s1 <> hash_of s2 ->
   (add_source s2 (add_source s1 sources).2).2
   = (add_source s1 (add_source s2 sources).2).2) /\
  (hash_of s1 = hash_of s2 ->
   SourceTracker.source (hash_of s1) (add_source s2 (add_source s1 sources).2).2
   = Ok (splitlines s2)).
Proof.
  split.
  - intros Hne. simpl. by apply insert_insert_ne.
  - intros Heq. simpl. unfold SourceTracker.source.
    fold (hash_of s1) (hash_of s2). rewrite Heq, lookup_insert_eq. reflexivity.
Qed.

(** X10: the span of a node of a text that [add_source] has registered can
    always be widened: right after registering, [with_context] succeeds with
    the line count of that text as the bound of [context_end], and it still
    succeeds after any further registrations. *)
Theorem registered_span_widens (text : string)
    (sources : gmap string (list string)) (node : ruamel.Node)
    (f : option string) (before after : option Z) (texts : list string) :
  let h := (add_source text sources).1 in
  let sources' := (add_source text sources).2 in
  let s := Span.from_node node h f in
  (exists s', Span.with_context s before after sources' = Ok s' /\
     forall A, after = Some A ->
       context_end s' =
         Some {| line := Z.min (Z.of_nat (length (splitlines text)))
                               (ruamel.line (ruamel.end_mark node) + 1 + A);
                 col := 0 |}) /\
  (exists s', Span.with_context s before after (register_all texts sources') = Ok s').
Proof.
  intros h sources' s.
  assert (Hreg : sources' !! source_hash s = Some (splitlines text)).
  { simpl. apply lookup_insert_eq. }
  split.
  - eexists. split; [apply (with_context_registered _ _ _ _ _ Hreg) |].
    intros A ->. reflexivity.
  - destruct (register_all_is_Some texts sources' (source_hash s)) as [l Hl].
    + by rewrite Hreg.
    + eexists. apply (with_context_registered _ _ _ _ _ Hl).
Qed.

End SourceTrackerMore.

Lemma source_stays_registered_witness :
  SourceTracker.source "h"
    (SourceTracker.register_all id_encode id_digest (fun s => [s])
       ["a: b"; "c: d"] three_line_sources)
  = Ok ["rules:"; "  - id: x"; "    pattern: y"].
Proof.
  destruct (source_stays_registered id_encode id_digest (fun s => [s])
              ["a: b"; "c: d"] three_line_sources "h"
              ["rules:"; "  - id: x"; "    pattern: y"] eq_refl) as [_ Hsame].
  apply Hsame. vm_compute.
  intros Hin. apply list_elem_of_In in Hin. simpl in Hin.
  destruct Hin as [[=] | [[=] | []]].
Defined.

(** * Further properties: YamlMap *)





(** [d[k] = v] either appends, when no key equals [k], or replaces the value
    of the first entry whose key equals [k]. *)
Lemma dict_setitem_cases {K V : Type} (eqb : K -> K -> bool)
    (d : list (K * V)) (k : K) (v : V) :
  (Forall (fun kv => eqb kv.1 k = false) d /\
   dict_setitem eqb d k v = d ++ [(k, v)]) \/
  (exists pre k' v' post,
     d = pre ++ (k', v') :: post /\ eqb k' k = true /\
     Forall (fun kv => eqb kv.1 k = false) pre /\
     dict_setitem eqb d k v = pre ++ (k', v) :: post).
Proof.
  induction d as [|[k0 v0] d IH]; simpl.
  - left. split; [constructor | reflexivity].
  - destruct (eqb k0 k) eqn:Hk.
    + right. exists [], k0, v0, d. repeat split; [done | constructor].
    + destruct IH as [[Hfresh ->] | (pre & k' & v' & post & -> & Hk' & Hpre & ->)].
      * left. split; [by constructor | reflexivity].
      * right. exists ((k0, v0) :: pre), k', v', post.
        repeat split; [done | by constructor].
Qed.



(** X13: assignment is by object and lookup by string.  Storing under a key
    that holds another string than [k] leaves [get(k)] as it was, provided an
    entry at the key's address is that key object; storing under a key object
    the map already has, keys being distinct objects, leaves [keys()] as they
    were and puts the value beside that key. *)
Theorem setitem_by_object (m : YamlMap) (key v : YamlTree) (k : string) :
  Forall (fun kv => tid kv.1 = tid key -> kv.1 = key) (YamlMap.items m) ->
  let m' := YamlMap.__setitem__ m key v in
  (value key <> PStr k -> YamlMap.get m' k = YamlMap.get m k) /\
  (key ∈ YamlMap.keys m -> NoDup (tid <$> YamlMap.keys m) ->
   YamlMap.keys m' = YamlMap.keys m /\ (key, v) ∈ YamlMap.items m').
Proof.
  destruct m as [d]. unfold YamlMap.keys, YamlMap.items, YamlMap.__setitem__.
  simpl. intros Hheap.
  destruct (dict_setitem_cases is_ d key v)
    as [[Hfresh ->] | (pre & k' & v' & post & -> & Hk' & Hpre & ->)].
  - split.
    + intros Hne. rewrite get_app, get_cons.
      apply eq_str_false in Hne. rewrite Hne. simpl.
      by destruct (YamlMap.get (mkYamlMap d) k).
    + intros Hin _. exfalso.
      apply list_elem_of_fmap in Hin as ([k1 v1] & -> & Hin).
      rewrite Forall_forall in Hfresh. apply Hfresh in Hin.
      apply is_false in Hin. by simpl in Hin.
  - assert (k' = key) as ->.
    { rewrite Forall_forall in Hheap.
      apply (Hheap (k', v')).
      - apply elem_of_app. right. apply elem_of_cons. by left.
      - unfold is_ in Hk'. by apply Nat.eqb_eq in Hk'. }
    split.
    + intros Hne. rewrite !get_app, !get_cons.
      apply eq_str_false in Hne. by rewrite Hne.
    + intros _ _. split.
      * by rewrite !fmap_app.
      * apply elem_of_app. right. apply elem_of_cons. by left.
Qed.

Lemma setitem_by_object_witness :
  YamlMap.get (YamlMap.__setitem__ dup_map (int_tree 7 7) (int_tree 8 8)) "a"
  = Some (int_tree 1 1) /\
  YamlMap.keys (YamlMap.__setitem__ dup_map (key_a 2) (int_tree 8 8))
  = [key_a 0; key_a 2].
Proof.
  split.
  - destruct (setitem_by_object dup_map (int_tree 7 7) (int_tree 8 8) "a")
      as [Hother _].
    + repeat constructor; simpl; intros [=].
    + rewrite Hother; [reflexivity | discriminate].
  - destruct (setitem_by_object dup_map (key_a 2) (int_tree 8 8) "a")
      as [_ Hsame].
    + repeat constructor; simpl; intros Heq; first [discriminate | reflexivity].
    + destruct Hsame as [Hkeys _]; [| | exact Hkeys].
      * apply elem_of_cons. right. apply elem_of_cons. by left.
      * vm_compute. repeat constructor; intros Hin; apply list_elem_of_In in Hin;
          simpl in Hin; intuition discriminate.
Defined.

(** * Further properties: what [wrap] builds *)

Lemma nodes_PList (i : nat) (elems : list PyVal) (sp : Span) :
  nodes (mkYamlTree i (PList elems) sp) =
  elems_nodes elems ++ [mkYamlTree i (PList elems) sp].
Proof. reflexivity. Qed.

Lemma nodes_PMap (i : nat) (internal : list (YamlTree * YamlTree)) (sp : Span) :
  nodes (mkYamlTree i (PMap (mkYamlMap internal)) sp) =
  items_nodes internal ++ [mkYamlTree i (PMap (mkYamlMap internal)) sp].
Proof. reflexivity. Qed.

Lemma wrap_elems_cons (sp : Span) (x : PyVal) (elems : list PyVal) (next : nat) :
  wrap_elems sp (x :: elems) next =
  (PTree (YamlTree.wrap x sp next).1
     :: (wrap_elems sp elems (YamlTree.wrap x sp next).2).1,
   (wrap_elems sp elems (YamlTree.wrap x sp next).2).2).
Proof. simpl. rewrite !abind_run. reflexivity. Qed.

Lemma wrap_pairs_cons (sp : Span) (k : string) (v : PyVal)
    (entries : list (string * PyVal)) (next : nat) :
  wrap_pairs sp ((k, v) :: entries) next =
  ((mkYamlTree next (PStr k) sp, (YamlTree.wrap v sp (S next)).1)
     :: (wrap_pairs sp entries (YamlTree.wrap v sp (S next)).2).1,
   (wrap_pairs sp entries (YamlTree.wrap v sp (S next)).2).2).
Proof. simpl. rewrite !abind_run. reflexivity. Qed.

Lemma wrap_plain_list (sp : Span) (elems : list PyVal) (next : nat) :
  YamlTree.wrap (PList elems) sp next =
  (mkYamlTree (wrap_elems sp elems next).2
     (PList (wrap_elems sp elems next).1) sp,
   S (wrap_elems sp elems next).2).
Proof. rewrite wrap_PList, abind_run. reflexivity. Qed.

Lemma wrap_plain_dict (sp : Span) (entries : list (string * PyVal)) (next : nat) :
  YamlTree.wrap (PDict entries) sp next =
  (mkYamlTree (wrap_pairs sp entries next).2
     (PMap (mkYamlMap (wrap_pairs sp entries next).1)) sp,
   S (wrap_pairs sp entries next).2).
Proof.
  rewrite wrap_PDict, abind_run, wrap_entries_pairs by constructor. reflexivity.
Qed.

Lemma wrap_elems_mono (sp : Span) (elems : list PyVal) (next : nat) :
  (next <= (wrap_elems sp elems next).2)%nat.
Proof.
  revert next. induction elems as [|x elems IH]; intros next; [simpl; lia |].
  rewrite wrap_elems_cons. simpl.
  pose proof (wrap_mono x sp next). specialize (IH (YamlTree.wrap x sp next).2). lia.
Qed.

Lemma wrap_pairs_mono (sp : Span) (entries : list (string * PyVal)) (next : nat) :
  (next <= (wrap_pairs sp entries next).2)%nat.
Proof.
  revert next. induction entries as [|[k v] entries IH]; intros next; [simpl; lia |].
  rewrite wrap_pairs_cons. simpl.
  pose proof (wrap_mono v sp (S next)).
  specialize (IH (YamlTree.wrap v sp (S next)).2). lia.
Qed.

Lemma plain_list_elems (elems : list PyVal) :
  plain (PList elems) = true -> Forall (fun x => plain x = true) elems.
Proof. simpl. apply forallb_Forall_true. Qed.

Lemma plain_dict_entries (entries : list (string * PyVal)) :
  plain (PDict entries) = true ->
  NoDup entries.*1 /\ Forall (fun kv => plain kv.2 = true) entries.
Proof.
  simpl. rewrite andb_true_iff, bool_decide_eq_true. intros [Hnd Hall].
  split; [done |]. by apply forallb_Forall_true.
Qed.

(** Stamping, node by node. *)
Lemma wrap_spans (v : PyVal) :
  plain v = true ->
  forall (sp : Span) (next : nat),
    Forall (fun t => span t = sp) (nodes (YamlTree.wrap v sp next).1).
Proof.
  induction v as [s|z| |bits|elems IH|entries IH|t|m]
    using PyVal_nested_ind; intros Hplain sp next; try discriminate;
    try (by repeat constructor).
  - rewrite wrap_plain_list. simpl fst. rewrite nodes_PList.
    apply Forall_app. split; [| by repeat constructor].
    apply plain_list_elems in Hplain. clear -IH Hplain. revert next.
    induction elems as [|x elems IHe]; intros next; [constructor |].
    apply Forall_cons in IH as [Hx IH]. apply Forall_cons in Hplain as [Hpx Hp].
    rewrite wrap_elems_cons. simpl. apply Forall_app. split; [by apply Hx | by apply IHe].
  - rewrite wrap_plain_dict. simpl fst. rewrite nodes_PMap.
    apply Forall_app. split; [| by repeat constructor].
    apply plain_dict_entries in Hplain as [_ Hplain]. clear -IH Hplain. revert next.
    induction entries as [|[k x] entries IHe]; intros next; [constructor |].
    apply Forall_cons in IH as [Hx IH]. apply Forall_cons in Hplain as [Hpx Hp].
    rewrite wrap_pairs_cons. simpl. constructor; [done |].
    apply Forall_app. split; [by apply Hx | by apply IHe].
Qed.

(** X14: [wrap] attaches the span everywhere: every node of the tree built
    from a plain value (the root, every list element, every map key and
    value, at any depth) carries the span given to [wrap]. *)
Theorem wrap_stamps_span (v : PyVal) (sp : Span) (next : nat) :
  plain v = true ->
  Forall (fun t => span t = sp) (nodes (YamlTree.wrap v sp next).1) /\
  span (YamlTree.wrap v sp next).1 = sp.
Proof.
  intros Hplain. pose proof (wrap_spans v Hplain sp next) as Hall.
  split; [exact Hall |].
  rewrite Forall_forall in Hall. apply Hall.
  destruct (YamlTree.wrap v sp next).1 as [i x s]. simpl.
  apply elem_of_app. right. by apply list_elem_of_singleton.
Qed.

Lemma wrap_stamps_span_witness :
  Forall (fun t => span t = six_line_span)
    (nodes (YamlTree.wrap rule_value six_line_span 0%nat).1).
Proof.
  destruct (wrap_stamps_span rule_value six_line_span 0%nat) as [Hall _].
  - vm_compute. reflexivity.
  - exact Hall.
Defined.

Lemma seq_glue (a b c : nat) :
  (a <= b)%nat -> (b <= c)%nat ->
  seq a (b - a) ++ seq b (c - b) = seq a (c - a).
Proof.
  intros Hab Hbc. replace (c - a)%nat with ((b - a) + (c - b))%nat by lia.
  rewrite seq_app. by replace (a + (b - a))%nat with b by lia.
Qed.

Lemma seq_one (a : nat) : [a] = seq a (S a - a).
Proof. by replace (S a - a)%nat with 1%nat by lia. Qed.

(** Addresses of the nodes, in the order they were allocated. *)
Lemma wrap_addresses (v : PyVal) :
  plain v = true ->
  forall (sp : Span) (next : nat),
    tid <$> nodes (YamlTree.wrap v sp next).1
    = seq next ((YamlTree.wrap v sp next).2 - next).
Proof.
  induction v as [s|z| |bits|elems IH|entries IH|t|m]
    using PyVal_nested_ind; intros Hplain sp next; try discriminate;
    try (simpl; apply seq_one).
  - rewrite wrap_plain_list. simpl fst. simpl snd. rewrite nodes_PList, fmap_app.
    simpl. rewrite (seq_one (wrap_elems sp elems next).2).
    pose proof (wrap_elems_mono sp elems next).
    rewrite <- (seq_glue next (wrap_elems sp elems next).2) by lia. f_equal.
    apply plain_list_elems in Hplain. clear -IH Hplain. revert next.
    induction elems as [|x elems IHe]; intros next.
    + simpl. by rewrite Nat.sub_diag.
    + apply Forall_cons in IH as [Hx IH]. apply Forall_cons in Hplain as [Hpx Hp].
      rewrite wrap_elems_cons. simpl. rewrite fmap_app, Hx, IHe by done.
      apply seq_glue; [apply wrap_mono | apply wrap_elems_mono].
  - rewrite wrap_plain_dict. simpl fst. simpl snd. rewrite nodes_PMap, fmap_app.
    simpl. rewrite (seq_one (wrap_pairs sp entries next).2).
    pose proof (wrap_pairs_mono sp entries next).
    rewrite <- (seq_glue next (wrap_pairs sp entries next).2) by lia. f_equal.
    apply plain_dict_entries in Hplain as [_ Hplain]. clear -IH Hplain. revert next.
    induction entries as [|[k x] entries IHe]; intros next.
    + simpl. by rewrite Nat.sub_diag.
    + apply Forall_cons in IH as [Hx IH]. apply Forall_cons in Hplain as [Hpx Hp].
      rewrite wrap_pairs_cons. simpl. rewrite fmap_app. simpl in Hx.
      rewrite Hx, IHe by done.
      pose proof (wrap_mono x sp (S next)).
      pose proof (wrap_pairs_mono sp entries (YamlTree.wrap x sp (S next)).2).
      rewrite seq_glue by lia.
      replace ((wrap_pairs sp entries (YamlTree.wrap x sp (S next)).2).2 - next)%nat
        with (S ((wrap_pairs sp entries (YamlTree.wrap x sp (S next)).2).2 - S next))
        by lia.
      reflexivity.
Qed.

(** X15: every node [wrap] builds from a plain value is a new object: the
    nodes are pairwise distinct, none is at an address in use before the call,
    and the call advances the next free address by the number of nodes. *)
Theorem wrap_fresh_objects (v : PyVal) (sp : Span) (next : nat) :
  plain v = true ->
  let t := (YamlTree.wrap v sp next).1 in
  let next' := (YamlTree.wrap v sp next).2 in
  NoDup (tid <$> nodes t) /\
  (forall i, i ∈ tid <$> nodes t -> (next <= i < next')%nat) /\
  next' = (next + length (nodes t))%nat.
Proof.
  intros Hplain t next'. unfold t, next'.
  pose proof (wrap_addresses v Hplain sp next) as Hids.
  pose proof (wrap_mono v sp next) as Hmono.
  split; [| split].
  - rewrite Hids. apply NoDup_seq.
  - intros i. rewrite Hids, elem_of_seq. lia.
  - apply (f_equal length) in Hids. rewrite length_fmap, length_seq in Hids. lia.
Qed.

Lemma wrap_fresh_objects_witness :
  NoDup (tid <$> nodes (YamlTree.wrap rule_value six_line_span 10%nat).1) /\
  (YamlTree.wrap rule_value six_line_span 10%nat).2
  = (10 + length (nodes (YamlTree.wrap rule_value six_line_span 10%nat).1))%nat.
Proof.
  destruct (wrap_fresh_objects rule_value six_line_span 10%nat)
    as (Hnodup & _ & Hnext).
  - vm_compute. reflexivity.
  - split; [exact Hnodup | exact Hnext].
Defined.

Lemma wrap_elems_trees (sp : Span) (ts : list YamlTree) (next : nat) :
  wrap_elems sp (PTree <$> ts) next = (PTree <$> ts, next).
Proof.
  induction ts as [|t ts IH]; [reflexivity |].
  rewrite fmap_cons, wrap_elems_cons. simpl. by rewrite IH.
Qed.

(** X16: [wrap] reuses trees: wrapping a tree again returns that object and
    allocates nothing, whatever span is passed, and wrapping a list of trees
    allocates the list node only and keeps the trees as its elements. *)
Theorem wrap_reuses_trees (sp sp' : Span) (next next' : nat) :
  (forall v, YamlTree.wrap (PTree (YamlTree.wrap v sp next).1) sp' next'
             = ((YamlTree.wrap v sp next).1, next')) /\
  (forall ts, YamlTree.wrap (PList (PTree <$> ts)) sp next
              = (mkYamlTree next (PList (PTree <$> ts)) sp, S next)) /\
  (forall ts, nodes (YamlTree.wrap (PList (PTree <$> ts)) sp next).1
              = flat_map nodes ts
                ++ [mkYamlTree next (PList (PTree <$> ts)) sp]).
Proof.
  assert (Hlist : forall ts, YamlTree.wrap (PList (PTree <$> ts)) sp next
              = (mkYamlTree next (PList (PTree <$> ts)) sp, S next)).
  { intros ts. by rewrite wrap_plain_list, wrap_elems_trees. }
  split; [reflexivity |]. split; [exact Hlist |].
  intros ts. rewrite Hlist. simpl fst. rewrite nodes_PList. f_equal.
  induction ts as [|t ts IH]; [reflexivity |]. rewrite fmap_cons.
  change (elem_nodes (PTree t) ++ elems_nodes (PTree <$> ts)
          = nodes t ++ flat_map nodes ts).
  by rewrite IH.
Qed.

(** * Further properties: what [unroll] returns *)

(** [d[k] = v] keeps the keys of a [dict] distinct. *)
Lemma dict_setitem_NoDup {V : Type} (d : list (string * V)) (k : string) (v : V) :
  NoDup d.*1 -> NoDup (dict_setitem str_eqb d k v).*1.
Proof.
  intros Hnodup.
  destruct (dict_setitem_cases str_eqb d k v)
    as [[Hfresh ->] | (pre & k' & v' & post & -> & Hk' & Hpre & ->)].
  - rewrite fmap_app. simpl. apply NoDup_app. split; [done |]. split.
    + intros k0 Hk0 Hin. apply list_elem_of_singleton in Hin. subst k0.
      apply list_elem_of_fmap in Hk0 as ([k1 v1] & -> & Hin).
      rewrite Forall_forall in Hfresh. apply Hfresh in Hin.
      unfold str_eqb in Hin. simpl in Hin. by apply bool_decide_eq_false in Hin.
    + apply NoDup_singleton.
  - by rewrite !fmap_app in *.
Qed.

Lemma dict_setitem_values {V : Type} (P : V -> Prop)
    (d : list (string * V)) (k : string) (v : V) :
  Forall (fun kv => P kv.2) d -> P v ->
  Forall (fun kv => P kv.2) (dict_setitem str_eqb d k v).
Proof.
  intros Hd Hv.
  destruct (dict_setitem_cases str_eqb d k v)
    as [[Hfresh ->] | (pre & k' & v' & post & -> & Hk' & Hpre & ->)].
  - apply Forall_app. split; [done | by repeat constructor].
  - apply Forall_app in Hd as [Hpre' Hpost]. apply Forall_cons in Hpost as [_ Hpost].
    apply Forall_app. split; [done |]. by constructor.
Qed.




Lemma supported_PList (elems : list PyVal) :
  supported (PList elems) = true <-> Forall (fun x => supported x = true) elems.
Proof. simpl. apply forallb_Forall_true. Qed.

Lemma supported_PDict (entries : list (string * PyVal)) :
  supported (PDict entries) = true <->
  NoDup entries.*1 /\ Forall (fun kv => supported kv.2 = true) entries.
Proof.
  simpl. rewrite andb_true_iff, bool_decide_eq_true, forallb_Forall_true. tauto.
Qed.

Section UnrollMore.
Variable repr : PyVal -> string.

Lemma unroll_elems_supported (elems ys : list PyVal) :
  Forall (fun x => match x with
                   | PTree t => forall v, YamlTree.unroll repr t = Ok v ->
                                          supported v = true
                   | _ => True
                   end) elems ->
  unroll_elems repr elems = Ok ys -> Forall (fun y => supported y = true) ys.
Proof.
  intros IH. revert ys. induction IH as [|x elems Hx _ IHe]; intros ys Hrun.
  - injection Hrun as <-. constructor.
  - simpl in Hrun. destruct x; simpl in Hrun; try discriminate.
    destruct (YamlTree.unroll repr t) as [y|] eqn:Hy; simpl in Hrun; [| discriminate].
    destruct (unroll_elems repr elems) as [ys'|]; simpl in Hrun; [| discriminate].
    injection Hrun as <-. constructor; [by apply Hx | by apply IHe].
Qed.

Lemma unroll_items_supported (items : list (YamlTree * YamlTree))
    (acc d : list (string * PyVal)) :
  Forall (fun kv =>
            (forall v, YamlTree.unroll repr kv.1 = Ok v -> supported v = true) /\
            (forall v, YamlTree.unroll repr kv.2 = Ok v -> supported v = true))
         items ->
  NoDup acc.*1 -> Forall (fun kv => supported kv.2 = true) acc ->
  unroll_items repr items acc = Ok d ->
  NoDup d.*1 /\ Forall (fun kv => supported kv.2 = true) d.
Proof.
  intros IH. revert acc d.
  induction IH as [|[k v] items [_ Hv] _ IHi]; intros acc d Hnd Hacc Hrun.
  - injection Hrun as <-. by split.
  - simpl in Hrun.
    destruct (YamlTree.unroll repr k) as [ku|]; simpl in Hrun; [| discriminate].
    destruct (YamlTree.unroll repr v) as [vu|] eqn:Hvu; simpl in Hrun; [| discriminate].
    apply (IHi _ _ (dict_setitem_NoDup acc (YamlTree.str repr ku) vu Hnd)
             (dict_setitem_values (fun y => supported y = true) acc _ vu Hacc
                (Hv vu Hvu)) Hrun).
Qed.

(** Whatever [unroll] returns is built from the supported shapes. *)
Lemma unroll_supported (t : YamlTree) (v : PyVal) :
  YamlTree.unroll repr t = Ok v -> supported v = true.
Proof.
  revert v. induction t as [i x sp Hl Hm Ht|i elems sp IH|i internal sp IH|i t sp IH]
    using YamlTree_nested_ind; intros v Hrun.
  - destruct x; simpl in Hrun; try discriminate; try (by injection Hrun as <-).
    + by destruct (Hl elems).
    + by destruct (Ht t).
    + destruct m as [d]. by destruct (Hm (mkYamlMap d)).
  - rewrite unroll_PList in Hrun.
    destruct (unroll_elems repr elems) as [ys|] eqn:Hys; simpl in Hrun; [| discriminate].
    injection Hrun as <-. apply supported_PList.
    by apply (unroll_elems_supported elems).
  - rewrite unroll_PMap in Hrun.
    destruct (unroll_items repr internal []) as [d|] eqn:Hd; simpl in Hrun; [| discriminate].
    injection Hrun as <-. apply supported_PDict.
    apply (unroll_items_supported internal [] d); try done; constructor.
  - by apply IH.
Qed.

(** X17: whatever [unroll] returns is a plain value of the supported shapes:
    strings and integers in lists and string-keyed dicts, with no [YamlTree],
    [YamlMap], [None] or float anywhere inside and no dict key twice. *)
Theorem unroll_returns_supported (t : YamlTree) (v : PyVal) :
  YamlTree.unroll repr t = Ok v -> supported v = true /\ plain v = true.
Proof.
  intros Hrun. pose proof (unroll_supported t v Hrun) as Hs.
  split; [exact Hs | by apply supported_plain].
Qed.

(** X18: wrapping what a tree unrolled to and unrolling again gives the same
    value: [unroll] after [wrap] after [unroll] is [unroll]. *)
Theorem unroll_wrap_unroll (t : YamlTree) (v : PyVal) (sp : Span) (next : nat) :
  YamlTree.unroll repr t = Ok v ->
  YamlTree.unroll repr (YamlTree.wrap v sp next).1 = Ok v.
Proof.
  intros Hrun. pose proof (unroll_supported t v Hrun) as Hs.
  rewrite (unroll_wrap repr v (supported_plain v Hs)).
  unfold unroll_outcome. by rewrite Hs.
Qed.



Lemma unroll_elems_app (pre post : list PyVal) :
  unroll_elems repr (pre ++ post) =
  rbind (unroll_elems repr pre)
        (fun ys => rbind (unroll_elems repr post) (fun zs => Ok (ys ++ zs))).
Proof.
  induction pre as [|x pre IH]; simpl.
  - by destruct (unroll_elems repr post).
  - destruct (unroll_elem repr x); simpl; [| reflexivity]. rewrite IH.
    destruct (unroll_elems repr pre); simpl; [| reflexivity].
    by destruct (unroll_elems repr post).
Qed.

Lemma unroll_items_app (pre post : list (YamlTree * YamlTree))
    (acc : list (string * PyVal)) :
  unroll_items repr (pre ++ post) acc =
  rbind (unroll_items repr pre acc) (fun acc' => unroll_items repr post acc').
Proof.
  revert acc. induction pre as [|[k v] pre IH]; intros acc; simpl; [reflexivity |].
  destruct (YamlTree.unroll repr k); simpl; [| reflexivity].
  destruct (YamlTree.unroll repr v); simpl; [| reflexivity]. apply IH.
Qed.

(** X21: a failure below propagates unchanged: when the elements (entries)
    before a child unroll and the child raises [e], the list (map) node raises
    [e]; a list element that is not a [YamlTree] raises [AttributeError]. *)
Theorem unroll_error_propagates (i : nat) (sp : Span) (e : PyErr) :
  (forall pre post x ys,
     unroll_elems repr pre = Ok ys -> unroll_elem repr x = Raise e ->
     YamlTree.unroll repr (mkYamlTree i (PList (pre ++ x :: post)) sp) = Raise e) /\
  (forall pre post x ys,
     unroll_elems repr pre = Ok ys -> (forall t, x <> PTree t) ->
     YamlTree.unroll repr (mkYamlTree i (PList (pre ++ x :: post)) sp)
     = Raise (AttributeError "unroll")) /\
  (forall pre post k v acc,
     unroll_items repr pre [] = Ok acc ->
     YamlTree.unroll repr k = Raise e \/
     (exists ku, YamlTree.unroll repr k = Ok ku /\ YamlTree.unroll repr v = Raise e) ->
     YamlTree.unroll repr
       (mkYamlTree i (PMap (mkYamlMap (pre ++ (k, v) :: post))) sp) = Raise e).
Proof.
  split; [| split].
  - intros pre post x ys Hpre Hx.
    rewrite unroll_PList, unroll_elems_app, Hpre. simpl. by rewrite Hx.
  - intros pre post x ys Hpre Hx.
    rewrite unroll_PList, unroll_elems_app, Hpre. simpl.
    destruct x; try reflexivity. by destruct (Hx t).
  - intros pre post k v acc Hpre Hkv.
    rewrite unroll_PMap, unroll_items_app, Hpre. simpl.
    destruct Hkv as [Hk | (ku & Hk & Hv)]; rewrite Hk; simpl; [done |].
    by rewrite Hv.
Qed.

Lemma wrap_pairs_keys (sp : Span) (entries : list (string * PyVal)) (next : nat) :
  value <$> (wrap_pairs sp entries next).1.*1 = PStr <$> entries.*1.
Proof.
  revert next. induction entries as [|[k v] entries IH]; intros next; [reflexivity |].
  rewrite wrap_pairs_cons. simpl. by rewrite IH.
Qed.

Lemma wrap_pairs_get (sp : Span) (entries : list (string * PyVal))
    (k : string) (v : PyVal) (next : nat) :
  NoDup entries.*1 -> (k, v) ∈ entries ->
  exists next0,
    YamlMap.get (mkYamlMap (wrap_pairs sp entries next).1) k
    = Some (YamlTree.wrap v sp next0).1.
Proof.
  revert next. induction entries as [|[k0 v0] entries IH]; intros next Hnd Hin.
  - by apply elem_of_nil in Hin.
  - rewrite wrap_pairs_cons. simpl fst. rewrite get_cons. simpl.
    apply NoDup_cons in Hnd as [Hk0 Hnd].
    case_bool_decide as Hk.
    + subst k0. apply elem_of_cons in Hin as [[= ->] | Hin]; [by eexists |].
      exfalso. apply Hk0. apply list_elem_of_fmap. by exists (k, v).
    + apply elem_of_cons in Hin as [[= -> ->] | Hin]; [done |]. by apply IH.
Qed.

Lemma wrap_pairs_get_None (sp : Span) (entries : list (string * PyVal))
    (k : string) (next : nat) :
  k ∉ entries.*1 -> YamlMap.get (mkYamlMap (wrap_pairs sp entries next).1) k = None.
Proof.
  revert next. induction entries as [|[k0 v0] entries IH]; intros next Hnot;
    [reflexivity |].
  rewrite wrap_pairs_cons. simpl fst. rewrite get_cons. simpl.
  simpl in Hnot. apply not_elem_of_cons in Hnot as [Hne Hnot].
  rewrite bool_decide_eq_false_2 by congruence. by apply IH.
Qed.

(** X22: the map [wrap] builds from a supported dict answers like the dict:
    its keys hold the dict's keys in order, [get(k)] of a key of the dict is a
    tree that unrolls to the dict's value for [k], and [get] of any other
    string is [None]. *)
Theorem wrap_dict_lookup (entries : list (string * PyVal)) (sp : Span) (next : nat) :
  supported (PDict entries) = true ->
  exists i m next',
    YamlTree.wrap (PDict entries) sp next = (mkYamlTree i (PMap m) sp, next') /\
    value <$> YamlMap.keys m = PStr <$> entries.*1 /\
    (forall k v, (k, v) ∈ entries ->
       exists vt, YamlMap.get m k = Some vt /\ YamlTree.unroll repr vt = Ok v) /\
    (forall k, k ∉ entries.*1 -> YamlMap.get m k = None).
Proof.
  intros Hs. apply supported_PDict in Hs as [Hnd Hvals].
  eexists _, _, _. split; [apply wrap_plain_dict |]. split; [| split].
  - apply wrap_pairs_keys.
  - intros k v Hin.
    destruct (wrap_pairs_get sp entries k v next Hnd Hin) as [next0 Hget].
    eexists. split; [exact Hget |].
    rewrite Forall_forall in Hvals. pose proof (Hvals _ Hin) as Hv. simpl in Hv.
    rewrite (unroll_wrap repr v (supported_plain v Hv)).
    unfold unroll_outcome. by rewrite Hv.
  - intros k Hnot. by apply wrap_pairs_get_None.
Qed.

End UnrollMore.

Lemma unroll_returns_supported_witness :
  supported (PDict [("7", PStr "x")]) = true /\
  plain (PDict [("7", PStr "x")]) = true.
Proof.
  apply (unroll_returns_supported type_name seven_map). reflexivity.
Defined.

Lemma unroll_wrap_unroll_witness :
  YamlTree.unroll type_name
    (YamlTree.wrap (PDict [("7", PStr "x")]) six_line_span 3%nat).1
  = Ok (PDict [("7", PStr "x")]).
Proof.
  apply (unroll_wrap_unroll type_name seven_map). reflexivity.
Defined.



Lemma wrap_dict_lookup_witness :
  exists i m next',
    YamlTree.wrap rule_value six_line_span 0%nat
    = (mkYamlTree i (PMap m) six_line_span, next') /\
    exists vt, YamlMap.get m "severity" = Some vt /\
               YamlTree.unroll type_name vt = Ok (PInt 2).
Proof.
  destruct (wrap_dict_lookup type_name
              [("id", PStr "x"); ("severity", PInt 2);
               ("patterns", PList [PDict [("pattern", PStr "y")]; PStr "z"])]
              six_line_span 0%nat)
    as (i & m & next' & Hwrap & _ & Hget & _).
  - vm_compute. reflexivity.
  - exists i, m, next'. split; [exact Hwrap |].
    apply (Hget "severity" (PInt 2)).
    apply elem_of_cons. right. apply elem_of_cons. by left.
Defined.

Lemma unroll_error_propagates_witness :
  YamlTree.unroll type_name
    (mkYamlTree 2
       (PList [PTree (int_tree 0 1); PTree (mkYamlTree 1 PNone six_line_span)])
       six_line_span)
  = Raise invalid_tree /\
  YamlTree.unroll type_name
    (mkYamlTree 2 (PList [PTree (int_tree 0 1); PInt 5]) six_line_span)
  = Raise (AttributeError "unroll").
Proof.
  destruct (unroll_error_propagates type_name 2%nat six_line_span invalid_tree)
    as (Hchild & _).
  destruct (unroll_error_propagates type_name 2%nat six_line_span StopIteration)
    as (_ & Hbare & _).
  split.
  - apply (Hchild [PTree (int_tree 0 1)] []
             (PTree (mkYamlTree 1 PNone six_line_span)) [PInt 1]); reflexivity.
  - apply (Hbare [PTree (int_tree 0 1)] [] (PInt 5) [PInt 1]);
      [reflexivity | discriminate].
Defined.
